(** * Action pattern cache (actionPatternCache.ts): model and properties

    A shallow embedding of [ActionPatternCache]: the per-key lists of
    cached action patterns, the lookup with its keyword / confidence / TTL
    gate, the store with its size bound and eviction, and the confidence
    update.

    Modelling conventions.
    - A JavaScript string is a [string] whose characters are UTF-16 code
      units below 256 (the Latin-1 range); [String.length] is [.length].
      Module [Wide] embeds the store over code units of any value, where
      lower-casing can lengthen a text.
    - JavaScript numbers holding counts and millisecond time stamps are
      [nat] and [Z]; [confidence] is a real number, the idealisation of the
      double the code computes, and [Math.exp] is the real exponential.
    - [Date.now()] is an explicit argument [now] of every operation: one
      operation reads one clock value.
    - The platform's [URL] parser and [RegExp] compiler are parameters: the
      first returns [None] where [new URL] throws, the second says whether
      [new RegExp] accepts a source text. *)

From Stdlib Require Import Reals Lra ZArith Lia Ascii String Permutation Sorted.
From stdpp Require Import gmap strings list fin_maps pretty.

Local Open Scope list_scope.

(** ** JavaScript strings *)

Module JSString.

(** White space as matched by the regular expression class [\s], on code
    units below 256: TAB, LF, VT, FF, CR, SPACE and NO-BREAK SPACE. *)
Definition isWhiteSpace (c : ascii) : bool :=
  let n := N_of_ascii c in
  ((9 <=? n) && (n <=? 13) || (n =? 32) || (n =? 160))%N.

(** [String.prototype.toLowerCase] on one code unit: A-Z and the Latin-1
    capitals (all of U+00C0 - U+00DE but the multiplication sign). *)
Definition lowerChar (c : ascii) : ascii :=
  let n := N_of_ascii c in
  if ((65 <=? n) && (n <=? 90)
      || (192 <=? n) && (n <=? 222) && negb (n =? 215))%N
  then ascii_of_N (n + 32) else c.

Fixpoint toLowerCase (s : string) : string :=
  match s with
  | EmptyString => EmptyString
  | String c s' => String (lowerChar c) (toLowerCase s')
  end.

(** [s.split(/\s+/)]. The flag [run] says that the previous code unit was
    white space, that is, that the scan is inside a separator. A separator
    at either end of the text leaves an empty token there, and the empty
    text splits into one empty token. *)
Fixpoint splitFrom (run : bool) (s : string) : list string :=
  match s with
  | EmptyString => [EmptyString]
  | String c s' =>
      if isWhiteSpace c then
        if run then splitFrom true s'
        else EmptyString :: splitFrom true s'
      else
        match splitFrom false s' with
        | t :: ts => String c t :: ts
        | [] => [String c EmptyString]
        end
  end.

Definition splitWhiteSpace (s : string) : list string := splitFrom false s.

(** [s.substring(start, stop)]: the two indices are swapped when out of
    order and clamped to the length. *)
Definition substring (start stop : nat) (s : string) : string :=
  String.substring (Nat.min start stop) (Nat.max start stop - Nat.min start stop) s.

Fixpoint startsWith (k s : string) : bool :=
  match k, s with
  | EmptyString, _ => true
  | String _ _, EmptyString => false
  | String a k', String b s' => Ascii.eqb a b && startsWith k' s'
  end.

(** [s.includes(k)]: [k] occurs in [s] as a contiguous run. *)
Fixpoint includes (s k : string) : bool :=
  startsWith k s
  || match s with
     | EmptyString => false
     | String _ s' => includes s' k
     end.

End JSString.

(** ** The platform: URL parsing and regular expressions *)

(** The two fields of a parsed [URL] object that the cache reads. *)
Record URL := mkURL { hostname : string; pathname : string }.

(** ** Patterns *)

(** [CachedActionPattern]. [urlPattern] keeps the source text of the
    regular expression; [lastUsed] is the time value of the [Date]. *)
Record CachedActionPattern (Action : Type) := mkPattern {
  id : string;
  pattern : string;
  urlPattern : string;
  taskKeywords : list string;
  actions : list Action;
  successCount : nat;
  failureCount : nat;
  lastUsed : Z;
  confidence : R
}.

Arguments mkPattern {Action}.
Arguments id {Action}.
Arguments pattern {Action}.
Arguments urlPattern {Action}.
Arguments taskKeywords {Action}.
Arguments actions {Action}.
Arguments successCount {Action}.
Arguments failureCount {Action}.
Arguments lastUsed {Action}.
Arguments confidence {Action}.

Definition maxCacheSize : nat := 100.
Definition confidenceThreshold : R := 0.85%R.
Definition ttl : Z := 5 * 60 * 1000.


(** The comparison [x < y] of two numbers, as a boolean. *)
Definition Rltb (x y : R) : bool := if Rlt_dec x y then true else false.
Definition Rleb (x y : R) : bool := if Rle_dec x y then true else false.

(** ** A concrete platform, for the examples *)

Module Demo.

(** Actions are opaque to the cache; the examples name them. *)
Definition Action : Type := string.

(** A platform that parses one address and rejects every other text, and
    whose regular expressions reject a lone opening parenthesis. *)
Definition parseURL (url : string) : option URL :=
  if decide (url = "https://example.com/portfolio")
  then Some (mkURL "example.com" "/portfolio")
  else None.

Definition regExpValid (source : string) : bool :=
  negb (String.eqb source "(").

(** The pattern that a store of the task "github portfolio" with the
    actions [A1], [A2] makes for the key [K] when the clock reads 1000. *)
Definition stored : CachedActionPattern Action :=
  mkPattern "K_1000" "pattern_github" "K" ["github"; "portfolio"]
            ["A1"; "A2"] 1 0 1000 0.85%R.

(** The same pattern after one report of success. *)
Definition trusted : CachedActionPattern Action :=
  mkPattern "K_1000" "pattern_github" "K" ["github"; "portfolio"]
            ["A1"; "A2"] 2 0 1000 1%R.

(** The pattern that a store of the task "go to it" makes: no token of
    the task is longer than three code units. *)
Definition unkeyed : CachedActionPattern Action :=
  mkPattern "K_1000" "pattern_undefined" "K" [] ["A1"] 1 0 1000 0.85%R.

(** A pattern without keywords whose confidence is 1. *)
Definition mute : CachedActionPattern Action :=
  mkPattern "K_1000" "pattern_undefined" "K" [] ["A1"] 2 0 1000 1%R.

(** A key that holds [maxCacheSize] patterns. *)
Definition full : gmap string (list (CachedActionPattern Action)) :=
  {[ "K" := replicate 100 trusted ]}.

End Demo.

(** ** Strings of UTF-16 code units

    The strings above hold code units below 256, on which lower-casing
    keeps the length. In JavaScript one code unit grows when lower-cased:
    U+0130, capital I with dot above, becomes the two units U+0069 U+0307.
    This module embeds the store and the steps it takes on strings over
    code units of any value, for task descriptions outside the 8-bit
    range. *)

Module Wide.

Definition ustring : Type := list N.

(** The 8-bit text as code units. *)
Fixpoint of_string (s : string) : ustring :=
  match s with
  | EmptyString => []
  | String c s' => N_of_ascii c :: of_string s'
  end.

(** White space as matched by [\s]: the seven code units below 256, U+1680,
    U+2000 - U+200A, U+2028, U+2029, U+202F, U+205F, U+3000 and U+FEFF. *)
Definition isWhiteSpace (c : N) : bool :=
  ((9 <=? c) && (c <=? 13) || (c =? 32) || (c =? 160) || (c =? 5760)
   || (8192 <=? c) && (c <=? 8202) || (c =? 8232) || (c =? 8233)
   || (c =? 8239) || (c =? 8287) || (c =? 12288) || (c =? 65279))%N.

(** [toLowerCase] on one code unit. U+0130 gives two units; A-Z and the
    Latin-1 capitals move by 32. The capitals of other scripts, which
    lower-case unit for unit, are left as they are: the length of the
    result is that of JavaScript for every string. *)
Definition lowerUnit (c : N) : list N :=
  if (c =? 304)%N then [105; 775]%N
  else if ((65 <=? c) && (c <=? 90)
           || (192 <=? c) && (c <=? 222) && negb (c =? 215))%N
       then [(c + 32)%N]
       else [c].

Fixpoint toLowerCase (s : ustring) : ustring :=
  match s with
  | [] => []
  | c :: s' => lowerUnit c ++ toLowerCase s'
  end.

(** [s.split(/\s+/)], as [JSString.splitFrom]. *)
Fixpoint splitFrom (run : bool) (s : ustring) : list ustring :=
  match s with
  | [] => [[]]
  | c :: s' =>
      if isWhiteSpace c then
        if run then splitFrom true s'
        else [] :: splitFrom true s'
      else
        match splitFrom false s' with
        | t :: ts => (c :: t) :: ts
        | [] => [[c]]
        end
  end.

Definition splitWhiteSpace (s : ustring) : list ustring := splitFrom false s.

Definition substring (start stop : nat) (s : ustring) : ustring :=
  take (Nat.max start stop - Nat.min start stop) (drop (Nat.min start stop) s).

Record URL := mkURL { hostname : ustring; pathname : ustring }.

Record CachedActionPattern (Action : Type) := mkPattern {
  id : ustring;
  pattern : ustring;
  urlPattern : ustring;
  taskKeywords : list ustring;
  actions : list Action;
  successCount : nat;
  failureCount : nat;
  lastUsed : Z;
  confidence : R
}.

Arguments mkPattern {Action}.
Arguments id {Action}.
Arguments pattern {Action}.
Arguments urlPattern {Action}.
Arguments taskKeywords {Action}.
Arguments actions {Action}.
Arguments successCount {Action}.
Arguments failureCount {Action}.
Arguments lastUsed {Action}.
Arguments confidence {Action}.

Section Store.

Context {Action : Type}.
Variable parseURL : ustring -> option URL.
Variable regExpValid : ustring -> bool.

Definition getCacheKey (url : ustring) : ustring :=
  match parseURL url with
  | Some urlObj => substring 0 100 (hostname urlObj ++ pathname urlObj)
  | None => substring 0 100 url
  end.

Definition extractKeywords (text : ustring) : list ustring :=
  take 5 (filter (fun word => 3 < length word)
                 (splitWhiteSpace (toLowerCase text))).

Definition urlToPattern (url : ustring) : ustring :=
  match parseURL url with
  | Some urlObj => hostname urlObj ++ substring 0 50 (pathname urlObj)
  | None => substring 0 50 url
  end.

Definition patternLabel (pattern : option ustring) (keywords : list ustring) : ustring :=
  let synthesized :=
    of_string "pattern_"
    ++ match keywords with k :: _ => k | [] => of_string "undefined" end in
  match pattern with
  | Some s => if decide (s = []) then synthesized else s
  | None => synthesized
  end.

Definition newPattern (key : ustring) (now : Z) (url : ustring)
    (keywords : list ustring) (actions : list Action) (pattern : option ustring)
  : CachedActionPattern Action :=
  {| id := key ++ of_string "_" ++ of_string (pretty now);
     pattern := patternLabel pattern keywords;
     urlPattern := urlToPattern url;
     taskKeywords := keywords;
     actions := actions;
     successCount := 1;
     failureCount := 0;
     lastUsed := now;
     confidence := 0.85%R |}.

Fixpoint insertByConfidence (x : CachedActionPattern Action)
    (l : list (CachedActionPattern Action)) : list (CachedActionPattern Action) :=
  match l with
  | [] => [x]
  | y :: l' =>
      if Rleb (confidence y) (confidence x) then x :: y :: l'
      else y :: insertByConfidence x l'
  end.

Fixpoint sortByConfidence (l : list (CachedActionPattern Action))
  : list (CachedActionPattern Action) :=
  match l with
  | [] => []
  | x :: l' => insertByConfidence x (sortByConfidence l')
  end.

Definition cacheSuccessfulPattern
    (cache : gmap ustring (list (CachedActionPattern Action))) (now : Z)
    (url taskDescription : ustring) (actions : list Action) (pattern : option ustring)
  : option (gmap ustring (list (CachedActionPattern Action))) :=
  let key := getCacheKey url in
  let patterns := default [] (cache !! key) in
  let keywords := extractKeywords taskDescription in
  if regExpValid (urlToPattern url) then
    let pushed := patterns ++ [newPattern key now url keywords actions pattern] in
    let kept :=
      if decide (maxCacheSize < length pushed)
      then removelast (sortByConfidence pushed)
      else pushed in
    Some (<[key := kept]> cache)
  else None.

End Store.

End Wide.

(** ** The cache *)

Section Cache.

Local Set Default Proof Using "Type".

Context {Action : Type}.
(** [new URL(url)]: [None] where the constructor throws. *)
Variable parseURL : string -> option URL.
(** Whether [new RegExp(source)] accepts [source]; it throws otherwise. *)
Variable regExpValid : string -> bool.

Abbreviation Pattern := (CachedActionPattern Action).
Abbreviation Cache := (gmap string (list (CachedActionPattern Action))).

(** *** Private helpers *)

Definition getCacheKey (url : string) : string :=
  match parseURL url with
  | Some urlObj => JSString.substring 0 100 (hostname urlObj +:+ pathname urlObj)
  | None => JSString.substring 0 100 url
  end.

Definition extractKeywords (text : string) : list string :=
  take 5 (filter (fun word => 3 < String.length word)
                 (JSString.splitWhiteSpace (JSString.toLowerCase text))).

Definition urlToPattern (url : string) : string :=
  match parseURL url with
  | Some urlObj => hostname urlObj +:+ JSString.substring 0 50 (pathname urlObj)
  | None => JSString.substring 0 50 url
  end.

(** *** getCachedActions *)

(** The predicate handed to [patterns.find]. *)
Definition isMatch (now : Z) (keyword : string) (p : Pattern) : bool :=
  existsb (fun k => JSString.includes keyword k) (taskKeywords p)
  && Rltb confidenceThreshold (confidence p)
  && (now - lastUsed p <? ttl)%Z.

(** [patterns.find(...)]: the first pattern that passes, with its place
    in the array (the place stands for the identity of the object). *)
Definition findMatch (now : Z) (keyword : string) (patterns : list Pattern)
  : option (nat * Pattern) :=
  list_find (fun p => Is_true (isMatch now keyword p)) patterns.

(** [match.lastUsed = new Date()]. *)
Definition setLastUsed (t : Z) (p : Pattern) : Pattern :=
  mkPattern (id p) (pattern p) (urlPattern p) (taskKeywords p) (actions p)
            (successCount p) (failureCount p) t (confidence p).

(** The result ([None] is [null]) and the cache after the call: the
    pattern found is the same object as the one in the array, so the
    assignment to its [lastUsed] shows in the cache. *)
Definition getCachedActions (cache : Cache) (now : Z) (url taskDescription : string)
  : option (list Action) * Cache :=
  let key := getCacheKey url in
  match cache !! key with
  | None => (None, cache)
  | Some patterns =>
      let keyword := JSString.toLowerCase taskDescription in
      match findMatch now keyword patterns with
      | Some (i, m) =>
          (Some (actions m), <[key := <[i := setLastUsed now m]> patterns]> cache)
      | None => (None, cache)
      end
  end.

(** *** cacheSuccessfulPattern *)

(** [pattern || `pattern_${keywords[0]}`]: an absent and an empty label
    are both falsy, and a missing first keyword prints as [undefined]. *)
Definition patternLabel (pattern : option string) (keywords : list string) : string :=
  let synthesized :=
    "pattern_" +:+ match keywords with k :: _ => k | [] => "undefined" end in
  match pattern with
  | Some s => if decide (s = "") then synthesized else s
  | None => synthesized
  end.

Definition newPattern (key : string) (now : Z) (url : string)
    (keywords : list string) (actions : list Action) (pattern : option string)
  : Pattern :=
  {| id := key +:+ "_" +:+ pretty now;
     pattern := patternLabel pattern keywords;
     urlPattern := urlToPattern url;
     taskKeywords := keywords;
     actions := actions;
     successCount := 1;
     failureCount := 0;
     lastUsed := now;
     confidence := 0.85%R |}.

(** [patterns.sort((a, b) => b.confidence - a.confidence)]: the sort is
    stable; [x], which came first, goes before the first [y] that the
    comparator does not put in front of it. *)
Fixpoint insertByConfidence (x : Pattern) (l : list Pattern) : list Pattern :=
  match l with
  | [] => [x]
  | y :: l' =>
      if Rleb (confidence y) (confidence x) then x :: y :: l'
      else y :: insertByConfidence x l'
  end.

Fixpoint sortByConfidence (l : list Pattern) : list Pattern :=
  match l with
  | [] => []
  | x :: l' => insertByConfidence x (sortByConfidence l')
  end.

(** [None] is the [SyntaxError] of [new RegExp]: it is thrown while the
    new pattern is built, before the cache is touched. *)
Definition cacheSuccessfulPattern (cache : Cache) (now : Z)
    (url taskDescription : string) (actions : list Action) (pattern : option string)
  : option Cache :=
  let key := getCacheKey url in
  let patterns := default [] (cache !! key) in
  let keywords := extractKeywords taskDescription in
  if regExpValid (urlToPattern url) then
    let pushed := patterns ++ [newPattern key now url keywords actions pattern] in
    let kept :=
      if decide (maxCacheSize < length pushed)
      then removelast (sortByConfidence pushed)
      else pushed in
    Some (<[key := kept]> cache)
  else None.

(** *** updatePatternConfidence *)

Definition decayFactor (timeSinceUsed : Z) : R :=
  exp (- IZR timeSinceUsed / IZR (24 * 60 * 60 * 1000)).

(** The body of [updatePatternConfidence] from the count increment on,
    on the pattern [p] it found. *)
Definition recalculate (success : bool) (now : Z) (p : Pattern) : Pattern :=
  let successCount' := if success then S (successCount p) else successCount p in
  let failureCount' := if success then failureCount p else S (failureCount p) in
  let totalAttempts := successCount' + failureCount' in
  let successRate := (INR successCount' / INR totalAttempts)%R in
  let timeSinceUsed := (now - lastUsed p)%Z in
  mkPattern (id p) (pattern p) (urlPattern p) (taskKeywords p) (actions p)
            successCount' failureCount' (lastUsed p)
            (successRate * (0.5 + 0.5 * decayFactor timeSinceUsed))%R.

(** [patterns.find(x => x.pattern === pattern)]. *)
Definition findLabel (label : string) (patterns : list Pattern)
  : option (nat * Pattern) :=
  list_find (fun x => pattern x = label) patterns.

Definition updatePatternConfidence (cache : Cache) (now : Z)
    (url label : string) (success : bool) : Cache :=
  let key := getCacheKey url in
  match cache !! key with
  | None => cache
  | Some patterns =>
      match findLabel label patterns with
      | None => cache
      | Some (i, p) => <[key := <[i := recalculate success now p]> patterns]> cache
      end
  end.

(** *** clearUrlCache, clearAll *)

Definition clearUrlCache (cache : Cache) (url : string) : Cache :=
  delete (getCacheKey url) cache.

Definition clearAll (cache : Cache) : Cache := ∅.

(** *** Sequences of calls *)

Inductive Call :=
| GetCachedActions (url taskDescription : string)
| CacheSuccessfulPattern (url taskDescription : string)
    (actions : list Action) (pattern : option string)
| UpdatePatternConfidence (url label : string) (success : bool)
| ClearUrlCache (url : string)
| ClearAll.

(** One call made when the clock reads [now]. A store that throws leaves
    the cache as it was. *)
Definition step (cache : Cache) (now : Z) (c : Call) : Cache :=
  match c with
  | GetCachedActions url task => snd (getCachedActions cache now url task)
  | CacheSuccessfulPattern url task acts label =>
      default cache (cacheSuccessfulPattern cache now url task acts label)
  | UpdatePatternConfidence url label success =>
      updatePatternConfidence cache now url label success
  | ClearUrlCache url => clearUrlCache cache url
  | ClearAll => clearAll cache
  end.

Fixpoint run (cache : Cache) (calls : list (Z * Call)) : Cache :=
  match calls with
  | [] => cache
  | (now, c) :: rest => run (step cache now c) rest
  end.

(** *** getStats *)

Record Stats := mkStats {
  totalPatterns : nat;
  totalHits : nat;
  cacheSize : nat;
  estimatedHitRate : R
}.

(** [patterns.reduce((sum, p) => sum + p.successCount, 0)]. *)
Definition sumSuccessCount (patterns : list Pattern) : nat :=
  foldl (fun sum p => sum + successCount p) 0 patterns.

(** The loop over [this.cache.values()] adds to the two counters at once.
    The map is visited in some order of its keys; the two sums do not
    depend on it. *)
Definition getStats (cache : Cache) : Stats :=
  let totals :=
    map_fold (fun _ patterns totals =>
                (fst totals + length patterns, snd totals + sumSuccessCount patterns))
             (0, 0) cache in
  {| totalPatterns := fst totals;
     totalHits := snd totals;
     cacheSize := size cache;
     estimatedHitRate :=
       if decide (0 < fst totals)
       then (INR (snd totals) / INR (fst totals))%R else 0%R |}.

(** *** Vocabulary of the properties *)

(** A string that holds a white space code unit. *)
Fixpoint hasWhiteSpace (s : string) : bool :=
  match s with
  | EmptyString => false
  | String c s' => JSString.isWhiteSpace c || hasWhiteSpace s'
  end.

(** The sum of [g] over the pattern lists of all keys. *)
Definition sumOver (g : list Pattern -> nat) (cache : Cache) : nat :=
  map_fold (fun _ patterns acc => acc + g patterns) 0 cache.

(** A pattern with its [lastUsed] blanked: what a lookup never changes. *)
Definition withoutLastUsed (p : Pattern) : Pattern := setLastUsed 0 p.

(** Several outcome reports on one pattern, each with its clock reading. *)
Fixpoint recalculateAll (reports : list (bool * Z)) (p : Pattern) : Pattern :=
  match reports with
  | [] => p
  | (success, now) :: rest => recalculateAll rest (recalculate success now p)
  end.

(** What every pattern of a cache built by calls satisfies, and what every
    key of such a cache satisfies. *)
Definition counted (p : Pattern) : Prop :=
  1 <= successCount p /\ pattern p <> ""%string.

Definition noEmptyKey (cache : Cache) : Prop :=
  map_Forall (fun _ patterns => patterns <> []) cache.


(** [a] may stand before [b] in a list sorted by descending confidence. *)
Definition byConfidence (a b : Pattern) : Prop :=
  (confidence b <= confidence a)%R.

(** No key holds more than [maxCacheSize] patterns. *)
Definition sizeBounded (cache : Cache) : Prop :=
  map_Forall (fun _ patterns => length patterns <= maxCacheSize) cache.

(** Every pattern under every key satisfies [P]. *)
Definition allPatterns (P : Pattern -> Prop) (cache : Cache) : Prop :=
  map_Forall (fun _ patterns => Forall P patterns) cache.

(** The clock readings of a sequence of calls do not go backwards, and
    none is before [t]. *)
Fixpoint clockFrom (t : Z) (calls : list (Z * Call)) : Prop :=
  match calls with
  | [] => True
  | (now, _) :: rest => (t <= now)%Z /\ clockFrom now rest
  end.

(** The calls that report an outcome. *)
Definition isUpdate (c : Call) : bool :=
  match c with
  | UpdatePatternConfidence _ _ _ => true
  | _ => false
  end.

(** What holds of every pattern when the clock reads [t]. *)
Definition inRange (t : Z) (p : Pattern) : Prop :=
  (0 <= confidence p <= 1)%R /\ (lastUsed p <= t)%Z.

(** The keyword list of [p] is what the extraction makes of some task
    description. *)
Definition fromExtraction (p : Pattern) : Prop :=
  exists task, taskKeywords p = extractKeywords task.

(** The reading of the keyword invariant that asks for a placeholder:
    no pattern in the cache has an empty keyword list. *)
Definition keywordsNeverEmpty (cache : Cache) : Prop :=
  forall key patterns p,
    cache !! key = Some patterns -> p ∈ patterns -> taskKeywords p <> [].

(** ** Properties *)

(** *** Strings *)

Lemma isWhiteSpace_lowerChar c :
  JSString.isWhiteSpace (JSString.lowerChar c) = JSString.isWhiteSpace c.
Proof. destruct c as [[] [] [] [] [] [] [] []]; reflexivity. Qed.

Lemma length_toLowerCase s :
  String.length (JSString.toLowerCase s) = String.length s.
Proof. induction s as [|c s IH]; simpl; congruence. Qed.

Lemma splitFrom_toLowerCase run s :
  JSString.splitFrom run (JSString.toLowerCase s)
  = map JSString.toLowerCase (JSString.splitFrom run s).
Proof.
  revert run; induction s as [|c s IH]; intros run; simpl; [reflexivity|].
  rewrite isWhiteSpace_lowerChar.
  destruct (JSString.isWhiteSpace c).
  - destruct run; simpl; rewrite IH; reflexivity.
  - rewrite IH. destruct (JSString.splitFrom false s); reflexivity.
Qed.

Lemma length_substring n m s :
  String.length (String.substring n m s) <= m.
Proof.
  revert n m; induction s as [|c s IH]; intros [|n] [|m]; simpl; try lia.
  - specialize (IH 0 m). lia.
  - apply (IH n 0).
  - apply (IH n (S m)).
Qed.

(** Every keyword is longer than three code units and there are at most
    five of them. *)
Lemma extractKeywords_bounds text :
  length (extractKeywords text) <= 5
  /\ Forall (fun k => 3 < String.length k) (extractKeywords text).
Proof.
  unfold extractKeywords; split.
  - rewrite length_take. lia.
  - apply Forall_take, Forall_forall. intros k Hk.
    apply list_elem_of_filter in Hk. by destruct Hk.
Qed.

(** The extraction finds no keyword where the lower-cased text has no
    token longer than three code units. *)
Lemma extractKeywords_nil text :
  Forall (fun w => String.length w <= 3)
         (JSString.splitWhiteSpace (JSString.toLowerCase text)) ->
  extractKeywords text = [].
Proof.
  intros H. unfold extractKeywords.
  induction H as [|w ws Hw Hws IH]; [reflexivity|].
  rewrite filter_cons_False by lia. exact IH.
Qed.

(** *** The lookup *)

Lemma Rltb_true x y : Rltb x y = true <-> (x < y)%R.
Proof. unfold Rltb; destruct (Rlt_dec x y); split; auto; discriminate. Qed.

Lemma Rleb_true x y : Rleb x y = true <-> (x <= y)%R.
Proof. unfold Rleb; destruct (Rle_dec x y); split; auto; discriminate. Qed.

Lemma isMatch_true now keyword p :
  isMatch now keyword p = true <->
  (exists k, k ∈ taskKeywords p /\ JSString.includes keyword k = true)
  /\ (confidenceThreshold < confidence p)%R
  /\ (now - lastUsed p < ttl)%Z.
Proof.
  unfold isMatch. rewrite !andb_true_iff, Rltb_true, Z.ltb_lt, existsb_exists.
  setoid_rewrite <- list_elem_of_In.
  split; [intros [[? ?] ?]|intros [? [? ?]]]; auto.
Qed.

(** What a lookup does, read off the pattern list of the key: a miss
    leaves the cache alone; a hit is on the first pattern that passes the
    three tests, returns its actions and refreshes its [lastUsed]. *)
Lemma getCachedActions_inv cache now url task patterns :
  cache !! getCacheKey url = Some patterns ->
  (getCachedActions cache now url task = (None, cache)
   /\ forall p, p ∈ patterns -> isMatch now (JSString.toLowerCase task) p = false)
  \/
  (exists j m,
      patterns !! j = Some m
      /\ isMatch now (JSString.toLowerCase task) m = true
      /\ (forall i p, patterns !! i = Some p -> i < j ->
                      isMatch now (JSString.toLowerCase task) p = false)
      /\ getCachedActions cache now url task
         = (Some (actions m),
            <[getCacheKey url := <[j := setLastUsed now m]> patterns]> cache)).
Proof.
  intros Hps. unfold getCachedActions. rewrite Hps. unfold findMatch.
  destruct (list_find _ patterns) as [[j m]|] eqn:Hfind.
  - right. apply list_find_Some in Hfind as (Hj & Hm & Hfirst).
    exists j, m. split_and!; auto.
    + by apply Is_true_true.
    + intros i p Hi Hlt. specialize (Hfirst i p Hi Hlt).
      destruct (isMatch now _ p); [by destruct Hfirst|done].
  - left. split; [done|]. intros p Hp.
    apply list_find_None in Hfind. rewrite Forall_forall in Hfind.
    specialize (Hfind p Hp). by destruct (isMatch now _ p); [destruct Hfind|].
Qed.

Lemma getCachedActions_absent cache now url task :
  cache !! getCacheKey url = None ->
  getCachedActions cache now url task = (None, cache).
Proof. intros H. unfold getCachedActions. by rewrite H. Qed.

(** A pattern that fails the test of the lookup is not the one returned:
    the lookup misses, or it hits another place of the list. *)
Lemma getCachedActions_skips cache now url task patterns i p :
  cache !! getCacheKey url = Some patterns ->
  patterns !! i = Some p ->
  isMatch now (JSString.toLowerCase task) p = false ->
  getCachedActions cache now url task = (None, cache)
  \/ exists j m,
      j <> i /\ patterns !! j = Some m
      /\ isMatch now (JSString.toLowerCase task) m = true
      /\ getCachedActions cache now url task
         = (Some (actions m),
            <[getCacheKey url := <[j := setLastUsed now m]> patterns]> cache).
Proof.
  intros Hps Hi Hno.
  destruct (getCachedActions_inv cache now url task patterns Hps)
    as [[Hmiss _]|(j & m & Hj & Hm & _ & Hhit)]; [by left|right].
  exists j, m. split_and!; auto.
  intros ->. congruence.
Qed.

(** C6. Threshold gating: a pattern whose confidence is at most the
    threshold is never the pattern a lookup returns, whatever the task
    text and the clock; the lookup misses or returns the actions of a
    pattern at another place, whose confidence is above the threshold. *)
Theorem threshold_gating cache now url task patterns i p :
  cache !! getCacheKey url = Some patterns ->
  patterns !! i = Some p ->
  (confidence p <= confidenceThreshold)%R ->
  getCachedActions cache now url task = (None, cache)
  \/ exists j m,
      j <> i /\ patterns !! j = Some m
      /\ (confidenceThreshold < confidence m)%R
      /\ getCachedActions cache now url task
         = (Some (actions m),
            <[getCacheKey url := <[j := setLastUsed now m]> patterns]> cache).
Proof.
  intros Hps Hi Hconf.
  destruct (getCachedActions_skips cache now url task patterns i p Hps Hi)
    as [Hmiss|(j & m & Hne & Hj & Hm & Hhit)]; [|by left|].
  - destruct (isMatch now _ p) eqn:E; [|done].
    apply isMatch_true in E as (_ & Hlt & _). lra.
  - right. exists j, m. apply isMatch_true in Hm as (_ & Hlt & _). auto.
Qed.

(** C7. TTL miss: a pattern last used at [T] is not returned by a lookup
    made at [T + ttl] or later; the lookup misses or returns the actions
    of a pattern at another place that was used less than [ttl] ago. *)
Theorem ttl_miss cache now url task patterns i p :
  cache !! getCacheKey url = Some patterns ->
  patterns !! i = Some p ->
  (confidenceThreshold < confidence p)%R ->
  (lastUsed p + ttl <= now)%Z ->
  getCachedActions cache now url task = (None, cache)
  \/ exists j m,
      j <> i /\ patterns !! j = Some m
      /\ (now - lastUsed m < ttl)%Z
      /\ getCachedActions cache now url task
         = (Some (actions m),
            <[getCacheKey url := <[j := setLastUsed now m]> patterns]> cache).
Proof.
  intros Hps Hi _ Hold.
  destruct (getCachedActions_skips cache now url task patterns i p Hps Hi)
    as [Hmiss|(j & m & Hne & Hj & Hm & Hhit)]; [|by left|].
  - destruct (isMatch now _ p) eqn:E; [|done].
    apply isMatch_true in E as (_ & _ & Hlt). lia.
  - right. exists j, m. apply isMatch_true in Hm as (_ & _ & Hlt). auto.
Qed.

(** *** The cache key *)

Lemma substring_prefix n s :
  exists rest, s = JSString.substring 0 n s +:+ rest.
Proof.
  unfold JSString.substring. rewrite Nat.min_0_l, Nat.max_0_l, Nat.sub_0_r.
  revert n; induction s as [|c s IH]; intros [|n]; simpl.
  - by exists "".
  - by exists "".
  - by exists (String c s).
  - destruct (IH n) as [rest Hrest]. exists rest.
    change (String c s = String c (String.substring 0 n s +:+ rest)). by f_equal.
Qed.

Lemma length_substring0 n s :
  String.length (JSString.substring 0 n s) = Nat.min n (String.length s).
Proof.
  unfold JSString.substring. rewrite Nat.min_0_l, Nat.max_0_l, Nat.sub_0_r.
  revert n; induction s as [|c s IH]; intros [|n]; simpl; auto.
Qed.


(** *** The confidence update *)

Lemma updatePatternConfidence_found cache now url label success patterns i p :
  cache !! getCacheKey url = Some patterns ->
  findLabel label patterns = Some (i, p) ->
  updatePatternConfidence cache now url label success
  = <[getCacheKey url := <[i := recalculate success now p]> patterns]> cache.
Proof. intros Hps Hf. unfold updatePatternConfidence. by rewrite Hps, Hf. Qed.

Lemma updatePatternConfidence_not_found cache now url label success :
  match cache !! getCacheKey url with
  | None => True
  | Some patterns => findLabel label patterns = None
  end ->
  updatePatternConfidence cache now url label success = cache.
Proof.
  unfold updatePatternConfidence. destruct (cache !! getCacheKey url); [|done].
  by intros ->.
Qed.

(** C2, as the code has it. For the pattern found by key and label the
    update counts the outcome and computes the decay factor from the
    pattern's [lastUsed]; it leaves [lastUsed] as it was. A hit of the
    lookup is what sets [lastUsed] to the current time. *)
Theorem update_keeps_lastUsed cache now url label success patterns i p :
  cache !! getCacheKey url = Some patterns ->
  findLabel label patterns = Some (i, p) ->
  exists p',
    updatePatternConfidence cache now url label success !! getCacheKey url
    = Some (<[i := p']> patterns)
    /\ lastUsed p' = lastUsed p
    /\ successCount p' + failureCount p' = S (successCount p + failureCount p)
    /\ confidence p'
       = (INR (successCount p') / INR (successCount p' + failureCount p')
          * (0.5 + 0.5 * exp (- IZR (now - lastUsed p) / 86400000)))%R.
Proof.
  intros Hps Hf. exists (recalculate success now p).
  rewrite (updatePatternConfidence_found _ _ _ _ _ _ _ _ Hps Hf).
  rewrite lookup_insert_eq. split_and!; try done.
  destruct success; simpl; lia.
Qed.

(** *** The sort and the eviction *)

Lemma insertByConfidence_perm x l :
  Permutation (insertByConfidence x l) (x :: l).
Proof.
  induction l as [|y l IH]; simpl; [done|].
  destruct (Rleb (confidence y) (confidence x)); [done|].
  rewrite IH. apply perm_swap.
Qed.

Lemma sortByConfidence_perm l : Permutation (sortByConfidence l) l.
Proof.
  induction l as [|x l IH]; simpl; [done|].
  by rewrite insertByConfidence_perm, IH.
Qed.

Lemma insertByConfidence_sorted x l :
  StronglySorted byConfidence l ->
  StronglySorted byConfidence (insertByConfidence x l).
Proof.
  induction 1 as [|y l Hl IH Hy]; simpl.
  - repeat constructor.
  - destruct (Rleb (confidence y) (confidence x)) eqn:E.
    + apply Rleb_true in E. constructor; [by constructor|].
      constructor; [done|].
      eapply Forall_impl; [exact Hy|]. unfold byConfidence. intros; lra.
    + assert (confidence x < confidence y)%R as Hlt.
      { destruct (Rle_dec (confidence y) (confidence x)) as [H|H].
        - apply Rleb_true in H. congruence.
        - lra. }
      constructor; [done|].
      rewrite insertByConfidence_perm. constructor; [|done].
      unfold byConfidence. lra.
Qed.

Lemma sortByConfidence_sorted l :
  StronglySorted byConfidence (sortByConfidence l).
Proof.
  induction l; simpl; [constructor|by apply insertByConfidence_sorted].
Qed.

(** In a list sorted by descending confidence the tail element has the
    lowest confidence. *)
Lemma sorted_last_lowest l v :
  StronglySorted byConfidence (l ++ [v]) ->
  Forall (fun q => (confidence v <= confidence q)%R) (l ++ [v]).
Proof.
  induction l as [|x l IH]; simpl; intros H.
  - constructor; [lra|constructor].
  - inversion H as [|? ? Hl Hx]; subst. constructor; [|auto].
    rewrite Forall_app, Forall_singleton in Hx. apply Hx.
Qed.

(** [sort] followed by [pop] on a list that is not empty: the list loses
    one element, of the lowest confidence, and keeps all others. *)
Lemma sort_pop l :
  l <> [] ->
  exists victim,
    Permutation l (removelast (sortByConfidence l) ++ [victim])
    /\ Forall (fun q => (confidence victim <= confidence q)%R) l.
Proof.
  intros Hne.
  assert (sortByConfidence l <> []) as Hs.
  { intros E. pose proof (sortByConfidence_perm l) as Hp.
    rewrite E in Hp. by apply Permutation_nil in Hp. }
  destruct (exists_last Hs) as (r & v & Hr).
  exists v. rewrite Hr, removelast_last, <- Hr. split.
  - symmetry. apply sortByConfidence_perm.
  - rewrite <- (sortByConfidence_perm l), Hr.
    apply sorted_last_lowest. rewrite <- Hr. apply sortByConfidence_sorted.
Qed.

Lemma length_removelast (l : list Pattern) :
  length (removelast l) = pred (length l).
Proof. rewrite removelast_firstn_len, length_take. lia. Qed.

Lemma cacheSuccessfulPattern_inv cache now url task acts label cache' :
  cacheSuccessfulPattern cache now url task acts label = Some cache' ->
  regExpValid (urlToPattern url) = true
  /\ let pushed :=
       default [] (cache !! getCacheKey url)
       ++ [newPattern (getCacheKey url) now url (extractKeywords task) acts label] in
     cache' =
     <[getCacheKey url :=
         if decide (maxCacheSize < length pushed)
         then removelast (sortByConfidence pushed) else pushed]> cache.
Proof.
  unfold cacheSuccessfulPattern.
  destruct (regExpValid (urlToPattern url)); [|done].
  intros [= <-]. done.
Qed.

(** C8. Eviction: when the push makes the list of the key longer than
    [maxCacheSize], the list kept is the pushed list without one pattern;
    that pattern has the lowest confidence of all candidates, the new one
    included, and every other candidate is still there. *)
Theorem eviction_drops_lowest cache now url task acts label cache' :
  let key := getCacheKey url in
  let old := default [] (cache !! key) in
  let new := newPattern key now url (extractKeywords task) acts label in
  cacheSuccessfulPattern cache now url task acts label = Some cache' ->
  maxCacheSize < length (old ++ [new]) ->
  exists kept victim,
    cache' !! key = Some kept
    /\ Permutation (old ++ [new]) (kept ++ [victim])
    /\ (forall q, q ∈ old ++ [new] -> (confidence victim <= confidence q)%R)
    /\ length kept = length old.
Proof.
  intros key old new Hstore Hlen.
  apply cacheSuccessfulPattern_inv in Hstore as [_ Hc'].
  fold key old new in Hc'. simpl in Hc'.
  rewrite decide_True in Hc' by exact Hlen.
  destruct (sort_pop (old ++ [new])) as (victim & Hperm & Hlow).
  { by destruct old. }
  exists (removelast (sortByConfidence (old ++ [new]))), victim.
  split_and!.
  - subst cache'. apply lookup_insert_eq.
  - exact Hperm.
  - by apply Forall_forall.
  - rewrite length_removelast, (Permutation_length (sortByConfidence_perm _)).
    rewrite length_app. simpl. lia.
Qed.

(** *** Stores without keywords *)

(** C10, as the code has it. The tokens are those of the lower-cased task
    description and their length is counted in code units. A store of a
    task description whose lower-cased text has no token longer than three
    code units puts into the cache a pattern with an empty keyword list:
    behind the patterns of the key where the key is not full, and among the
    candidates of the eviction where it is. A pattern with an empty keyword
    list is never the one a lookup returns; neither the refresh of
    [lastUsed] nor a confidence update changes the keyword list. *)
Theorem empty_keywords_never_match :
  (forall cache now url task acts label cache',
      Forall (fun w => String.length w <= 3)
             (JSString.splitWhiteSpace (JSString.toLowerCase task)) ->
      cacheSuccessfulPattern cache now url task acts label = Some cache' ->
      exists stored kept,
        taskKeywords stored = [] /\ actions stored = acts
        /\ cache' !! getCacheKey url = Some kept
        /\ (length (default [] (cache !! getCacheKey url)) < maxCacheSize ->
            kept = default [] (cache !! getCacheKey url) ++ [stored])
        /\ (maxCacheSize <= length (default [] (cache !! getCacheKey url)) ->
            exists victim,
              Permutation (default [] (cache !! getCacheKey url) ++ [stored])
                          (kept ++ [victim])))
  /\ (forall cache now url task patterns i p,
        cache !! getCacheKey url = Some patterns ->
        patterns !! i = Some p ->
        taskKeywords p = [] ->
        getCachedActions cache now url task = (None, cache)
        \/ exists j m,
            j <> i /\ patterns !! j = Some m /\ taskKeywords m <> []
            /\ getCachedActions cache now url task
               = (Some (actions m),
                  <[getCacheKey url := <[j := setLastUsed now m]> patterns]> cache))
  /\ (forall t success now (p : Pattern),
        taskKeywords (setLastUsed t p) = taskKeywords p
        /\ taskKeywords (recalculate success now p) = taskKeywords p).
Proof.
  split_and!.
  - intros cache now url task acts label cache' Hshort Hstore.
    apply cacheSuccessfulPattern_inv in Hstore as [_ ->]. cbv zeta.
    set (old := default [] (cache !! getCacheKey url)).
    set (new := newPattern (getCacheKey url) now url (extractKeywords task) acts label).
    eexists new, _. split_and!.
    + simpl. by apply extractKeywords_nil.
    + done.
    + apply lookup_insert_eq.
    + intros Hlen. rewrite decide_False; [done|]. rewrite length_app. simpl. lia.
    + intros Hfull. rewrite decide_True by (rewrite length_app; simpl; lia).
      destruct (sort_pop (old ++ [new])) as (victim & Hperm & _).
      { by destruct old. }
      by exists victim.
  - intros cache now url task patterns i p Hps Hi Hkw.
    destruct (getCachedActions_skips cache now url task patterns i p Hps Hi)
      as [Hmiss|(j & m & Hne & Hj & Hm & Hhit)]; [|by left|].
    + unfold isMatch. by rewrite Hkw.
    + right. exists j, m. split_and!; auto.
      apply isMatch_true in Hm as ((k & Hk & _) & _). intros E.
      rewrite E in Hk. by apply not_elem_of_nil in Hk.
  - done.
Qed.

(** *** The size bound *)

Lemma step_sizeBounded cache now c :
  sizeBounded cache -> sizeBounded (step cache now c).
Proof.
  intros Hb. destruct c as [url task|url task acts label|url label success|url|]; simpl.
  - unfold getCachedActions.
    destruct (cache !! getCacheKey url) as [ps|] eqn:Hps; [|done].
    destruct (findMatch _ _ ps) as [[j m]|]; [|done]. simpl.
    apply map_Forall_insert_2; [|done].
    rewrite length_insert. exact (Hb _ _ Hps).
  - destruct (cacheSuccessfulPattern _ _ _ _ _ _) as [cache'|] eqn:Hst; [|done].
    apply cacheSuccessfulPattern_inv in Hst as [_ ->]. simpl.
    apply map_Forall_insert_2; [|done].
    assert (length (default [] (cache !! getCacheKey url)) <= maxCacheSize) as Hold.
    { destruct (cache !! getCacheKey url) as [ps|] eqn:Hps; simpl.
      - exact (Hb _ _ Hps).
      - unfold maxCacheSize; lia. }
    case_decide as Hlen.
    + rewrite length_removelast, (Permutation_length (sortByConfidence_perm _)).
      rewrite length_app. simpl. lia.
    + lia.
  - unfold updatePatternConfidence.
    destruct (cache !! getCacheKey url) as [ps|] eqn:Hps; [|done].
    destruct (findLabel _ ps) as [[j m]|]; [|done].
    apply map_Forall_insert_2; [|done].
    rewrite length_insert. exact (Hb _ _ Hps).
  - by apply map_Forall_delete.
  - apply map_Forall_empty.
Qed.

Lemma run_sizeBounded calls : forall cache,
  sizeBounded cache -> sizeBounded (run cache calls).
Proof.
  induction calls as [|[now c] calls IH]; intros cache Hb; simpl; [done|].
  apply IH, step_sizeBounded, Hb.
Qed.

(** C4. Bounded size: after any sequence of calls on the empty cache,
    stores mixed with whatever else, every key holds at most
    [maxCacheSize] = 100 patterns. *)
Theorem bounded_size calls key patterns :
  run ∅ calls !! key = Some patterns ->
  length patterns <= maxCacheSize /\ maxCacheSize = 100.
Proof.
  intros H. split; [|reflexivity].
  exact (run_sizeBounded calls ∅ (map_Forall_empty _) key patterns H).
Qed.

(** *** Properties of every pattern in the cache *)

Lemma allPatterns_elem P cache key patterns p :
  allPatterns P cache -> cache !! key = Some patterns -> p ∈ patterns -> P p.
Proof.
  intros Hall Hps Hp. specialize (Hall _ _ Hps).
  rewrite Forall_forall in Hall. auto.
Qed.

Lemma Forall_removelast (P : Pattern -> Prop) l :
  Forall P l -> Forall P (removelast l).
Proof. rewrite removelast_firstn_len. apply Forall_take. Qed.

(** One call takes a cache whose patterns all satisfy [P] to one whose
    patterns all satisfy [Q], when [Q] follows from [P], survives the two
    in-place changes of a pattern, and holds of a new pattern. *)
Lemma step_allPatterns (P Q : Pattern -> Prop) cache now c :
  (forall p, P p -> Q p) ->
  (forall p, P p -> Q (setLastUsed now p)) ->
  (forall url label success p,
      c = UpdatePatternConfidence url label success ->
      P p -> Q (recalculate success now p)) ->
  (forall key url task acts label,
      Q (newPattern key now url (extractKeywords task) acts label)) ->
  allPatterns P cache -> allPatterns Q (step cache now c).
Proof.
  intros HPQ Hset Hrec Hnew Hall.
  assert (allPatterns Q cache) as HallQ.
  { eapply map_Forall_impl; [exact Hall|]. simpl.
    intros _ ps Hps. eapply Forall_impl; [exact Hps|exact HPQ]. }
  assert (forall key ps, cache !! key = Some ps -> Forall P ps) as Hkey by exact Hall.
  destruct c as [url task|url task acts label|url label success|url|]; simpl.
  - unfold getCachedActions.
    destruct (cache !! getCacheKey url) as [ps|] eqn:Hps; [|done].
    destruct (findMatch _ _ ps) as [[j m]|] eqn:Hf; [|done]. simpl.
    apply list_find_Some in Hf as (Hj & _ & _).
    apply map_Forall_insert_2; [|done].
    apply Forall_insert; [exact (HallQ _ _ Hps)|].
    apply Hset. eapply Forall_lookup_1; [exact (Hkey _ _ Hps)|exact Hj].
  - destruct (cacheSuccessfulPattern _ _ _ _ _ _) as [cache'|] eqn:Hst; [|done].
    apply cacheSuccessfulPattern_inv in Hst as [_ ->]. simpl.
    apply map_Forall_insert_2; [|done].
    assert (Forall Q (default [] (cache !! getCacheKey url)
                      ++ [newPattern (getCacheKey url) now url
                                     (extractKeywords task) acts label])) as Hpushed.
    { apply Forall_app; split; [|by apply Forall_singleton].
      destruct (cache !! getCacheKey url) as [ps|] eqn:Hps; simpl; [|constructor].
      exact (HallQ _ _ Hps). }
    case_decide; [|done].
    apply Forall_removelast. by rewrite sortByConfidence_perm.
  - unfold updatePatternConfidence.
    destruct (cache !! getCacheKey url) as [ps|] eqn:Hps; [|done].
    destruct (findLabel _ ps) as [[j m]|] eqn:Hf; [|done].
    apply list_find_Some in Hf as (Hj & _ & _).
    apply map_Forall_insert_2; [|done].
    apply Forall_insert; [exact (HallQ _ _ Hps)|].
    apply (Hrec url label success); [done|].
    eapply Forall_lookup_1; [exact (Hkey _ _ Hps)|exact Hj].
  - by apply map_Forall_delete.
  - apply map_Forall_empty.
Qed.

(** *** The confidence range *)

Lemma successRate_range (s f : nat) :
  0 < s + f -> (0 <= INR s / INR (s + f) <= 1)%R.
Proof.
  intros Hpos.
  assert (0 < INR (s + f))%R as Ht by (apply lt_0_INR; lia).
  assert (0 <= INR s)%R as Hs by apply pos_INR.
  assert (INR s <= INR (s + f))%R as Hle by (apply le_INR; lia).
  split.
  - apply Rmult_le_pos; [done|]. left. by apply Rinv_0_lt_compat.
  - apply (Rmult_le_reg_r (INR (s + f))); [done|].
    unfold Rdiv. rewrite Rmult_assoc, Rinv_l by lra. lra.
Qed.

Lemma decayFactor_range (timeSinceUsed : Z) :
  (0 <= timeSinceUsed)%Z -> (0 < decayFactor timeSinceUsed <= 1)%R.
Proof.
  intros Hpos. unfold decayFactor. split; [apply exp_pos|].
  assert (0 <= IZR timeSinceUsed)%R as Ht by (by apply IZR_le).
  assert (- IZR timeSinceUsed / IZR (24 * 60 * 60 * 1000) <= 0)%R as Hx.
  { unfold Rdiv. replace (IZR (24 * 60 * 60 * 1000)) with 86400000%R by reflexivity.
    assert (0 < / 86400000)%R by (apply Rinv_0_lt_compat; lra). nra. }
  destruct Hx as [Hlt|Heq].
  - left. rewrite <- exp_0. by apply exp_increasing.
  - rewrite Heq, exp_0. lra.
Qed.

Lemma recalculate_range success now p :
  (lastUsed p <= now)%Z ->
  (0 <= confidence (recalculate success now p) <= 1)%R.
Proof.
  intros Hclock. simpl.
  set (s := if success then S (successCount p) else successCount p).
  set (f := if success then failureCount p else S (failureCount p)).
  assert (0 < s + f) as Hpos by (subst s f; destruct success; lia).
  pose proof (successRate_range s f Hpos) as Hrate.
  pose proof (decayFactor_range (now - lastUsed p) ltac:(lia)) as Hdecay.
  nra.
Qed.

Lemma step_inRange cache t now c :
  (t <= now)%Z ->
  allPatterns (inRange t) cache -> allPatterns (inRange now) (step cache now c).
Proof.
  intros Hclock. apply step_allPatterns; unfold inRange.
  - intros p [? ?]. split; [done|lia].
  - intros p [? ?]. simpl. split; [done|lia].
  - intros _ _ success p _ [? ?].
    split; [apply recalculate_range; lia|simpl; lia].
  - intros. simpl. split; [lra|lia].
Qed.

Lemma run_inRange calls : forall cache t,
  clockFrom t calls -> allPatterns (inRange t) cache ->
  exists t', allPatterns (inRange t') (run cache calls).
Proof.
  induction calls as [|[now c] calls IH]; intros cache t Hclock Hall; simpl.
  - by exists t.
  - destruct Hclock as [Hle Hrest].
    apply (IH _ now Hrest). by apply (step_inRange cache t).
Qed.

(** C5, as the code has it. The range holds where the clock does not go
    backwards: the code takes the elapsed time from [Date.now()] as it is,
    without a lower bound. One update of a pattern, made when the clock is
    not before the pattern's [lastUsed], computes a success rate in [0,1]
    and a decay factor in [0,1], and so a confidence in [0,1]; and after
    any sequence of calls on the empty cache whose clock readings do not
    decrease, with whatever success flags, the confidence of every pattern
    is in [0,1]. *)
Theorem confidence_range :
  (forall success now (p : Pattern),
      (lastUsed p <= now)%Z ->
      let p' := recalculate success now p in
      (0 <= INR (successCount p') / INR (successCount p' + failureCount p') <= 1)%R
      /\ (0 <= decayFactor (now - lastUsed p) <= 1)%R
      /\ confidence p'
         = (INR (successCount p') / INR (successCount p' + failureCount p')
            * (0.5 + 0.5 * decayFactor (now - lastUsed p)))%R
      /\ (0 <= confidence p' <= 1)%R)
  /\ (forall t0 calls key patterns p,
        clockFrom t0 calls ->
        run ∅ calls !! key = Some patterns ->
        p ∈ patterns ->
        (0 <= confidence p <= 1)%R).
Proof.
  split.
  - intros success now p Hclock p'. refine (conj _ (conj _ (conj _ _))).
    + apply successRate_range. subst p'. destruct success; simpl; lia.
    + pose proof (decayFactor_range (now - lastUsed p) ltac:(lia)). lra.
    + reflexivity.
    + by apply recalculate_range.
  - intros t0 calls key patterns p Hclock Hps Hp.
    destruct (run_inRange calls ∅ t0 Hclock (map_Forall_empty _)) as [t' Hall].
    by destruct (allPatterns_elem _ _ _ _ _ Hall Hps Hp).
Qed.

(** Where the clock is set back between the last use and the update, the
    decay factor exceeds 1 and the confidence with it. *)
Lemma recalculate_clock_set_back (p : Pattern) :
  (confidence (recalculate true (lastUsed p - 86400000)
                 (mkPattern (id p) (pattern p) (urlPattern p) (taskKeywords p)
                    (actions p) (successCount p) 0 (lastUsed p) (confidence p)))
   > 1)%R.
Proof.
  unfold recalculate. cbn [confidence successCount failureCount lastUsed].
  rewrite Nat.add_0_r.
  assert (0 < INR (S (successCount p)))%R as Hs by (apply lt_0_INR; lia).
  unfold Rdiv at 1. rewrite Rinv_r by lra.
  unfold decayFactor.
  replace (lastUsed p - 86400000 - lastUsed p)%Z with (-86400000)%Z by lia.
  replace (- IZR (-86400000) / IZR (24 * 60 * 60 * 1000))%R with 1%R.
  2:{ replace (IZR (24 * 60 * 60 * 1000)) with 86400000%R by reflexivity. lra. }
  pose proof (exp_increasing 0 1 ltac:(lra)) as H. rewrite exp_0 in H. lra.
Qed.

(** *** The keyword list of a stored pattern *)

Lemma cacheSuccessfulPattern_appends cache now url task acts label :
  regExpValid (urlToPattern url) = true ->
  length (default [] (cache !! getCacheKey url)) < maxCacheSize ->
  cacheSuccessfulPattern cache now url task acts label
  = Some (<[getCacheKey url :=
             default [] (cache !! getCacheKey url)
             ++ [newPattern (getCacheKey url) now url (extractKeywords task) acts label]]>
            cache).
Proof.
  intros Hre Hlen. unfold cacheSuccessfulPattern. rewrite Hre.
  rewrite decide_False; [done|]. rewrite length_app. simpl. lia.
Qed.

Lemma run_fromExtraction calls : forall cache,
  allPatterns fromExtraction cache -> allPatterns fromExtraction (run cache calls).
Proof.
  induction calls as [|[now c] calls IH]; intros cache Hall; simpl; [done|].
  apply IH. revert Hall. apply step_allPatterns; try done.
  intros key url task acts label. by exists task.
Qed.

(** C3, as the code has it. The keyword list of a stored pattern is the
    result of the extraction on the task description it was stored with,
    taken as it is: at most five tokens, each longer than three code
    units, and no token at all where the extraction finds none. This
    holds of every pattern after any sequence of calls. *)
Theorem keywords_from_extraction :
  (forall cache now url task acts label,
      regExpValid (urlToPattern url) = true ->
      length (default [] (cache !! getCacheKey url)) < maxCacheSize ->
      exists stored,
        cacheSuccessfulPattern cache now url task acts label
        = Some (<[getCacheKey url :=
                   default [] (cache !! getCacheKey url) ++ [stored]]> cache)
        /\ taskKeywords stored = extractKeywords task)
  /\ (forall calls key patterns p,
        run ∅ calls !! key = Some patterns ->
        p ∈ patterns ->
        (exists task, taskKeywords p = extractKeywords task)
        /\ length (taskKeywords p) <= 5
        /\ Forall (fun k => 3 < String.length k) (taskKeywords p)).
Proof.
  split.
  - intros cache now url task acts label Hre Hlen.
    eexists. split; [by apply cacheSuccessfulPattern_appends|done].
  - intros calls key patterns p Hps Hp.
    pose proof (run_fromExtraction calls ∅ (map_Forall_empty _)) as Hall.
    destruct (allPatterns_elem _ _ _ _ _ Hall Hps Hp) as [task Htask].
    split; [by exists task|]. rewrite Htask. apply extractKeywords_bounds.
Qed.

(** *** Lookups that miss *)

Lemma isMatch_at_threshold now keyword (p : Pattern) :
  (confidence p <= confidenceThreshold)%R -> isMatch now keyword p = false.
Proof.
  intros Hle. destruct (isMatch now keyword p) eqn:E; [|done].
  apply isMatch_true in E as (_ & Hlt & _). lra.
Qed.

Lemma getCachedActions_miss cache now url task patterns :
  cache !! getCacheKey url = Some patterns ->
  Forall (fun p => isMatch now (JSString.toLowerCase task) p = false) patterns ->
  getCachedActions cache now url task = (None, cache).
Proof.
  intros Hps Hall.
  destruct (getCachedActions_inv cache now url task patterns Hps)
    as [[Hmiss _]|(j & m & Hj & Hm & _)]; [done|].
  rewrite Forall_forall in Hall.
  rewrite Hall in Hm by (by eapply list_elem_of_lookup_2). done.
Qed.

Lemma getCachedActions_first cache now url task m rest :
  cache !! getCacheKey url = Some (m :: rest) ->
  isMatch now (JSString.toLowerCase task) m = true ->
  getCachedActions cache now url task
  = (Some (actions m), <[getCacheKey url := setLastUsed now m :: rest]> cache).
Proof.
  intros Hps Hm.
  destruct (getCachedActions_inv cache now url task _ Hps)
    as [[_ Hnone]|(j & p & Hj & Hp & Hfirst & Hhit)].
  - rewrite Hnone in Hm by apply list_elem_of_here. done.
  - destruct j as [|j].
    + injection Hj as <-. exact Hhit.
    + rewrite (Hfirst 0 m) in Hm by (done || lia). done.
Qed.

Lemma decayFactor_0 : decayFactor 0 = 1%R.
Proof.
  unfold decayFactor. rewrite Ropp_0. unfold Rdiv. rewrite Rmult_0_l.
  apply exp_0.
Qed.

(** As long as no outcome is reported, every pattern keeps the confidence
    it was stored with, and no lookup hits. *)
Lemma run_without_update calls : forall cache,
  Forall (fun tc => isUpdate (snd tc) = false) calls ->
  allPatterns (fun p => confidence p = 0.85%R) cache ->
  allPatterns (fun p => confidence p = 0.85%R) (run cache calls).
Proof.
  induction calls as [|[now c] calls IH]; intros cache Hno Hall; simpl; [done|].
  inversion Hno as [|? ? Hc Hrest]; subst. simpl in Hc.
  apply IH; [done|]. revert Hall. apply step_allPatterns; try done.
  intros url label success p ->. discriminate.
Qed.

Lemma no_hit_without_update calls now url task :
  Forall (fun tc => isUpdate (snd tc) = false) calls ->
  getCachedActions (run ∅ calls) now url task = (None, run ∅ calls).
Proof.
  intros Hno.
  pose proof (run_without_update calls ∅ Hno (map_Forall_empty _)) as Hall.
  destruct (run ∅ calls !! getCacheKey url) as [patterns|] eqn:Hps.
  - apply (getCachedActions_miss _ _ _ _ patterns Hps).
    apply Forall_forall. intros p Hp. apply isMatch_at_threshold.
    rewrite (allPatterns_elem _ _ _ _ _ Hall Hps Hp).
    unfold confidenceThreshold. lra.
  - by apply getCachedActions_absent.
Qed.

Lemma cacheSuccessfulPattern_is_Some cache now url task acts label :
  regExpValid (urlToPattern url) = true ->
  exists cache', cacheSuccessfulPattern cache now url task acts label = Some cache'.
Proof. intros H. unfold cacheSuccessfulPattern. rewrite H. eauto. Qed.

Lemma cacheSuccessfulPattern_throws cache now url task acts label :
  regExpValid (urlToPattern url) = false ->
  cacheSuccessfulPattern cache now url task acts label = None.
Proof. intros H. unfold cacheSuccessfulPattern. by rewrite H. Qed.

(** *** Sums over the cache *)

Lemma sumOver_empty g : sumOver g ∅ = 0.
Proof. apply map_fold_empty. Qed.

Lemma sumOver_insert_None g (cache : Cache) key patterns :
  cache !! key = None ->
  sumOver g (<[key := patterns]> cache) = sumOver g cache + g patterns.
Proof.
  intros Hnone. unfold sumOver.
  rewrite map_fold_insert_L; [done| |done]. intros. lia.
Qed.

Lemma sumOver_delete g (cache : Cache) key patterns :
  cache !! key = Some patterns ->
  sumOver g cache = sumOver g (delete key cache) + g patterns.
Proof.
  intros Hsome. unfold sumOver.
  rewrite (map_fold_delete_L _ _ key patterns cache); [done| |done]. intros. lia.
Qed.

Lemma sumOver_insert_Some g (cache : Cache) key old patterns :
  cache !! key = Some old ->
  sumOver g (<[key := patterns]> cache) + g old = sumOver g cache + g patterns.
Proof.
  intros Hsome. rewrite <- insert_delete_eq.
  rewrite sumOver_insert_None by apply lookup_delete_eq.
  rewrite (sumOver_delete g cache key old Hsome). lia.
Qed.

Lemma sumOver_le g h (cache : Cache) :
  map_Forall (fun _ patterns => g patterns <= h patterns) cache ->
  sumOver g cache <= sumOver h cache.
Proof.
  induction cache as [|key patterns cache Hnone IH] using map_ind; intros Hall.
  - by rewrite !sumOver_empty.
  - rewrite !sumOver_insert_None by done.
    apply map_Forall_insert in Hall as [Hhere Hrest]; [|done].
    specialize (IH Hrest). lia.
Qed.

Lemma size_sumOver (cache : Cache) : size cache = sumOver (fun _ => 1) cache.
Proof.
  induction cache as [|key patterns cache Hnone IH] using map_ind.
  - by rewrite map_size_empty, sumOver_empty.
  - rewrite map_size_insert_None, sumOver_insert_None by done. lia.
Qed.

Lemma getStats_fold (cache : Cache) :
  map_fold (fun _ patterns totals =>
              (fst totals + length patterns, snd totals + sumSuccessCount patterns))
           (0, 0) cache
  = (sumOver length cache, sumOver sumSuccessCount cache).
Proof.
  induction cache as [|key patterns cache Hnone IH] using map_ind.
  - by rewrite map_fold_empty, !sumOver_empty.
  - rewrite map_fold_insert_L; [| |done].
    + rewrite IH, !sumOver_insert_None by done. done.
    + intros. simpl. f_equal; lia.
Qed.

Lemma getStats_sums (cache : Cache) :
  totalPatterns (getStats cache) = sumOver length cache
  /\ totalHits (getStats cache) = sumOver sumSuccessCount cache
  /\ cacheSize (getStats cache) = size cache.
Proof. unfold getStats. rewrite getStats_fold. done. Qed.

(** The statistics are a function of the two sums and the number of keys. *)
Lemma getStats_ext (cache cache' : Cache) :
  sumOver length cache' = sumOver length cache ->
  sumOver sumSuccessCount cache' = sumOver sumSuccessCount cache ->
  size cache' = size cache ->
  getStats cache' = getStats cache.
Proof.
  intros Hp Hh Hs. unfold getStats. rewrite !getStats_fold. simpl.
  by rewrite Hp, Hh, Hs.
Qed.

Lemma sumSuccessCount_acc (patterns : list Pattern) : forall n,
  foldl (fun sum p => sum + successCount p) n patterns
  = n + sumSuccessCount patterns.
Proof.
  unfold sumSuccessCount.
  induction patterns as [|p l IH]; intros n; simpl; [lia|].
  rewrite (IH (n + successCount p)), (IH (successCount p)). lia.
Qed.

Lemma sumSuccessCount_cons (p : Pattern) l :
  sumSuccessCount (p :: l) = successCount p + sumSuccessCount l.
Proof. unfold sumSuccessCount at 1. simpl. apply sumSuccessCount_acc. Qed.

Lemma sumSuccessCount_insert (patterns : list Pattern) : forall i old new,
  patterns !! i = Some old ->
  sumSuccessCount (<[i := new]> patterns) + successCount old
  = sumSuccessCount patterns + successCount new.
Proof.
  induction patterns as [|p l IH]; intros [|i] old new Hi; simpl in *; try done.
  - injection Hi as ->. rewrite !sumSuccessCount_cons. lia.
  - rewrite !sumSuccessCount_cons. specialize (IH i old new Hi). lia.
Qed.

Lemma sumSuccessCount_ge_length (patterns : list Pattern) :
  Forall (fun p => 1 <= successCount p) patterns ->
  length patterns <= sumSuccessCount patterns.
Proof.
  induction 1 as [|p l Hp Hl IH]; [done|].
  rewrite sumSuccessCount_cons. simpl. lia.
Qed.

(** *** What calls keep of every pattern and every key *)

Lemma patternLabel_not_empty label keywords : patternLabel label keywords <> ""%string.
Proof.
  unfold patternLabel. destruct label as [s|]; [destruct (decide (s = ""%string))|];
    try done; destruct keywords; discriminate.
Qed.

Lemma run_counted calls : forall cache,
  allPatterns counted cache -> allPatterns counted (run cache calls).
Proof.
  induction calls as [|[now c] calls IH]; intros cache Hall; simpl; [done|].
  apply IH. revert Hall. apply step_allPatterns; unfold counted; try done.
  - intros _ _ success p _ [Hs Hl]. split; [|done]. destruct success; simpl; lia.
  - intros key url task acts label. split; [simpl; lia|].
    apply patternLabel_not_empty.
Qed.

Lemma step_noEmptyKey cache now c :
  noEmptyKey cache -> noEmptyKey (step cache now c).
Proof.
  intros Hne.
  assert (forall (l : list Pattern), 0 < length l -> l <> []) as Hlen
    by (intros [|? ?]; simpl; [lia|done]).
  destruct c as [url task|url task acts label|url label success|url|]; simpl.
  - unfold getCachedActions.
    destruct (cache !! getCacheKey url) as [ps|] eqn:Hps; [|done].
    destruct (findMatch _ _ ps) as [[j m]|]; [|done]. simpl.
    apply map_Forall_insert_2; [|done].
    apply Hlen. rewrite length_insert.
    specialize (Hne _ _ Hps). destruct ps; simpl; [done|lia].
  - destruct (cacheSuccessfulPattern _ _ _ _ _ _) as [cache'|] eqn:Hst; [|done].
    apply cacheSuccessfulPattern_inv in Hst as [_ ->]. simpl.
    apply map_Forall_insert_2; [|done]. apply Hlen.
    case_decide as Hover.
    + rewrite length_removelast, (Permutation_length (sortByConfidence_perm _)).
      unfold maxCacheSize in Hover. lia.
    + rewrite length_app. simpl. lia.
  - unfold updatePatternConfidence.
    destruct (cache !! getCacheKey url) as [ps|] eqn:Hps; [|done].
    destruct (findLabel _ ps) as [[j m]|]; [|done].
    apply map_Forall_insert_2; [|done].
    apply Hlen. rewrite length_insert.
    specialize (Hne _ _ Hps). destruct ps; simpl; [done|lia].
  - by apply map_Forall_delete.
  - apply map_Forall_empty.
Qed.

Lemma run_noEmptyKey calls : forall cache,
  noEmptyKey cache -> noEmptyKey (run cache calls).
Proof.
  induction calls as [|[now c] calls IH]; intros cache Hne; simpl; [done|].
  apply IH, step_noEmptyKey, Hne.
Qed.

(** Whatever the calls made on the empty cache: every key present holds at
    least one pattern, and every pattern has a success count of at least 1
    (so at least one attempt is counted) and a label that is not empty. *)
Theorem reachable_patterns_counted calls key patterns :
  run ∅ calls !! key = Some patterns ->
  patterns <> []
  /\ Forall (fun p => 1 <= successCount p
                      /\ 1 <= successCount p + failureCount p
                      /\ pattern p <> ""%string) patterns.
Proof.
  intros Hps. split.
  - exact (run_noEmptyKey calls ∅ (map_Forall_empty _) key patterns Hps).
  - pose proof (run_counted calls ∅ (map_Forall_empty _) key patterns Hps) as Hall.
    eapply Forall_impl; [exact Hall|]. intros p [Hs Hl]. split_and!; [done|lia|done].
Qed.

(** *** getStats *)

(** A lookup, hit or miss, leaves the statistics as they were. *)
Theorem getStats_after_lookup cache now url task :
  getStats (snd (getCachedActions cache now url task)) = getStats cache.
Proof.
  destruct (cache !! getCacheKey url) as [patterns|] eqn:Hps.
  - destruct (getCachedActions_inv cache now url task patterns Hps)
      as [[-> _]|(j & m & Hj & _ & _ & ->)]; [done|]. simpl.
    apply getStats_ext.
    + pose proof (sumOver_insert_Some length cache (getCacheKey url) patterns
                    (<[j := setLastUsed now m]> patterns) Hps) as H.
      rewrite length_insert in H. lia.
    + pose proof (sumOver_insert_Some sumSuccessCount cache (getCacheKey url) patterns
                    (<[j := setLastUsed now m]> patterns) Hps) as H.
      pose proof (sumSuccessCount_insert patterns j m (setLastUsed now m) Hj) as H'.
      simpl in H'. lia.
    + by apply map_size_insert_Some.
  - by rewrite getCachedActions_absent.
Qed.

(** An outcome report that finds its pattern adds one to [totalHits] when
    it reports a success and nothing when it reports a failure; the number
    of patterns and the number of keys stay. *)
Theorem getStats_after_update cache now url label success patterns i p :
  cache !! getCacheKey url = Some patterns ->
  findLabel label patterns = Some (i, p) ->
  let after := getStats (updatePatternConfidence cache now url label success) in
  totalPatterns after = totalPatterns (getStats cache)
  /\ cacheSize after = cacheSize (getStats cache)
  /\ totalHits after = totalHits (getStats cache) + (if success then 1 else 0).
Proof.
  intros Hps Hf after. subst after.
  rewrite (updatePatternConfidence_found _ _ _ _ _ _ _ _ Hps Hf).
  apply list_find_Some in Hf as (Hi & _ & _).
  destruct (getStats_sums cache) as (-> & -> & ->).
  destruct (getStats_sums (<[getCacheKey url := <[i := recalculate success now p]> patterns]>
                             cache)) as (-> & -> & ->).
  split_and!.
  - pose proof (sumOver_insert_Some length cache (getCacheKey url) patterns
                  (<[i := recalculate success now p]> patterns) Hps) as H.
    rewrite length_insert in H. lia.
  - by apply map_size_insert_Some.
  - pose proof (sumOver_insert_Some sumSuccessCount cache (getCacheKey url) patterns
                  (<[i := recalculate success now p]> patterns) Hps) as H.
    pose proof (sumSuccessCount_insert patterns i p (recalculate success now p) Hi) as H'.
    destruct success; simpl in H'; lia.
Qed.

(** A store that returns adds one pattern where the key held fewer than
    [maxCacheSize] and none where the key was full, and adds one key where
    the key was new. *)
Theorem getStats_after_store cache now url task acts label cache' :
  cacheSuccessfulPattern cache now url task acts label = Some cache' ->
  totalPatterns (getStats cache')
  = totalPatterns (getStats cache)
    + (if decide (length (default [] (cache !! getCacheKey url)) < maxCacheSize)
       then 1 else 0)
  /\ cacheSize (getStats cache')
     = cacheSize (getStats cache)
       + (if cache !! getCacheKey url is Some _ then 0 else 1).
Proof.
  intros Hstore. apply cacheSuccessfulPattern_inv in Hstore as [_ ->]. cbv zeta.
  destruct (getStats_sums cache) as (-> & _ & ->).
  match goal with |- context [getStats ?c] =>
    destruct (getStats_sums c) as (-> & _ & ->) end.
  set (new := newPattern _ _ _ _ _ _).
  destruct (cache !! getCacheKey url) as [old|] eqn:Hold; simpl.
  - rewrite map_size_insert_Some by done. split; [|lia].
    match goal with |- context [<[_ := ?kept]> cache] =>
      pose proof (sumOver_insert_Some length cache (getCacheKey url) old kept Hold) as H
    end.
    rewrite length_app in *. simpl in *.
    repeat case_decide; try lia.
    + rewrite length_removelast, (Permutation_length (sortByConfidence_perm _)),
        length_app in H. simpl in H. lia.
    + rewrite length_app in H. simpl in H. lia.
  - rewrite map_size_insert_None by done. split; [|lia].
    by rewrite sumOver_insert_None.
Qed.

(** The statistics of a cache built by calls on the empty cache: there are
    at least as many patterns as keys and at most [maxCacheSize] per key,
    and [totalHits] is at least the number of patterns, so that
    [estimatedHitRate] is 1 or more as soon as there is a pattern. *)
Theorem getStats_reachable calls :
  let stats := getStats (run ∅ calls) in
  cacheSize stats <= totalPatterns stats
  /\ totalPatterns stats <= maxCacheSize * cacheSize stats
  /\ totalPatterns stats <= totalHits stats
  /\ (0 < totalPatterns stats -> (1 <= estimatedHitRate stats)%R)
  /\ (totalPatterns stats = 0 -> estimatedHitRate stats = 0%R).
Proof.
  intros stats.
  pose proof (run_noEmptyKey calls ∅ (map_Forall_empty _)) as Hne.
  pose proof (run_counted calls ∅ (map_Forall_empty _)) as Hcount.
  pose proof (run_sizeBounded calls ∅ (map_Forall_empty _)) as Hsize.
  assert (totalPatterns stats <= totalHits stats) as Hhits.
  { subst stats. destruct (getStats_sums (run ∅ calls)) as (-> & -> & _).
    apply sumOver_le. intros key patterns Hps. simpl.
    apply sumSuccessCount_ge_length.
    eapply Forall_impl; [exact (Hcount _ _ Hps)|]. by intros p [? _]. }
  split_and!; try done.
  - subst stats. destruct (getStats_sums (run ∅ calls)) as (-> & _ & ->).
    rewrite size_sumOver. apply sumOver_le. intros key patterns Hps. simpl.
    specialize (Hne _ _ Hps). destruct patterns; simpl; [done|lia].
  - subst stats. destruct (getStats_sums (run ∅ calls)) as (-> & _ & ->).
    rewrite size_sumOver.
    assert (forall n (cache : Cache),
               n * sumOver (fun _ => 1) cache = sumOver (fun _ => n) cache) as Hmul.
    { intros n cache.
      induction cache as [|k x m Hnone IH] using map_ind.
      - rewrite !sumOver_empty. lia.
      - rewrite !sumOver_insert_None by done. lia. }
    rewrite Hmul. apply sumOver_le. intros key patterns Hps. exact (Hsize _ _ Hps).
  - intros Hpos. revert Hhits Hpos. subst stats. unfold getStats.
    rewrite getStats_fold. simpl. intros Hhits Hpos.
    rewrite decide_True by done.
    assert (0 < INR (sumOver length (run ∅ calls)))%R as Hp by (by apply lt_0_INR).
    apply le_INR in Hhits.
    apply (Rmult_le_reg_r (INR (sumOver length (run ∅ calls)))); [done|].
    unfold Rdiv. rewrite Rmult_assoc, Rinv_l by lra. lra.
  - subst stats. unfold getStats. rewrite getStats_fold. simpl. intros ->.
    by rewrite decide_False by lia.
Qed.

(** *** Lookups: hits, misses, repetition *)

Lemma getCachedActions_hit_first cache now url task patterns j m :
  cache !! getCacheKey url = Some patterns ->
  patterns !! j = Some m ->
  isMatch now (JSString.toLowerCase task) m = true ->
  (forall i p, i < j -> patterns !! i = Some p ->
               isMatch now (JSString.toLowerCase task) p = false) ->
  getCachedActions cache now url task
  = (Some (actions m),
     <[getCacheKey url := <[j := setLastUsed now m]> patterns]> cache).
Proof.
  intros Hps Hj Hm Hfirst.
  destruct (getCachedActions_inv cache now url task patterns Hps)
    as [[_ Hnone]|(j' & m' & Hj' & Hm' & Hfirst' & Hhit)].
  - rewrite Hnone in Hm by (by eapply list_elem_of_lookup_2). done.
  - destruct (Nat.lt_trichotomy j j') as [Hlt|[->|Hgt]].
    + rewrite (Hfirst' j m Hj Hlt) in Hm. done.
    + rewrite Hj in Hj'. by injection Hj' as <-.
    + rewrite (Hfirst j' m' Hgt Hj') in Hm'. done.
Qed.

(** A lookup returns the actions of the first pattern of the key that
    passes the test of [find], and refreshes that pattern; it returns [null]
    exactly when the key is absent or none of its patterns passes. *)
Theorem lookup_first_match cache now url task :
  (forall patterns j m,
      cache !! getCacheKey url = Some patterns ->
      patterns !! j = Some m ->
      isMatch now (JSString.toLowerCase task) m = true ->
      (forall i p, i < j -> patterns !! i = Some p ->
                   isMatch now (JSString.toLowerCase task) p = false) ->
      getCachedActions cache now url task
      = (Some (actions m),
         <[getCacheKey url := <[j := setLastUsed now m]> patterns]> cache))
  /\ (fst (getCachedActions cache now url task) = None <->
      forall patterns p,
        cache !! getCacheKey url = Some patterns -> p ∈ patterns ->
        isMatch now (JSString.toLowerCase task) p = false).
Proof.
  split.
  - intros patterns j m. apply getCachedActions_hit_first.
  - destruct (cache !! getCacheKey url) as [patterns|] eqn:Hps.
    + destruct (getCachedActions_inv cache now url task patterns Hps)
        as [[Hmiss Hnone]|(j & m & Hj & Hm & _ & Hhit)].
      * rewrite Hmiss. split; [|done]. intros _ ps p [= <-]. apply Hnone.
      * rewrite Hhit. split; [done|]. intros Hall.
        rewrite (Hall patterns m eq_refl) in Hm by (by eapply list_elem_of_lookup_2).
        done.
    + rewrite getCachedActions_absent by done. split; [|done]. by intros _ ps p.
Qed.

Lemma isMatch_later now now' keyword (p : Pattern) :
  (now <= now')%Z ->
  isMatch now keyword p = false -> isMatch now' keyword p = false.
Proof.
  intros Hle Hno. destruct (isMatch now' keyword p) eqn:E; [|done].
  apply isMatch_true in E as (Hk & Hc & Ht).
  assert (isMatch now keyword p = true) as Hyes
    by (apply isMatch_true; split_and!; [done|done|lia]).
  congruence.
Qed.

(** A hit can be repeated: the same lookup made again less than [ttl]
    after a hit, on the cache the hit left, returns the same actions. *)
Theorem hit_repeats_within_ttl cache now url task acts cache' now' :
  getCachedActions cache now url task = (Some acts, cache') ->
  (now <= now' < now + ttl)%Z ->
  exists cache'', getCachedActions cache' now' url task = (Some acts, cache'').
Proof.
  intros Hhit [Hle Hlt].
  destruct (cache !! getCacheKey url) as [patterns|] eqn:Hps;
    [|by rewrite getCachedActions_absent in Hhit].
  destruct (getCachedActions_inv cache now url task patterns Hps)
    as [[Hmiss _]|(j & m & Hj & Hm & Hfirst & Hhit')]; [congruence|].
  rewrite Hhit' in Hhit. injection Hhit as <- <-.
  eexists.
  apply (getCachedActions_hit_first _ now' url task
           (<[j := setLastUsed now m]> patterns) j (setLastUsed now m)).
  - apply lookup_insert_eq.
  - apply list_lookup_insert_eq. by eapply lookup_lt_Some.
  - apply isMatch_true in Hm as (Hk & Hc & _).
    apply isMatch_true. simpl. split_and!; [done|done|lia].
  - intros i p Hi Hp. rewrite list_lookup_insert_ne in Hp by lia.
    eapply isMatch_later; [exact Hle|]. by apply (Hfirst i p).
Qed.

(** A lookup changes no field of any pattern but [lastUsed], and adds or
    removes no key and no pattern. *)
Theorem lookup_changes_only_lastUsed cache now url task :
  fmap (M:=list) withoutLastUsed <$> snd (getCachedActions cache now url task)
  = fmap (M:=list) withoutLastUsed <$> cache.
Proof.
  destruct (cache !! getCacheKey url) as [patterns|] eqn:Hps.
  - destruct (getCachedActions_inv cache now url task patterns Hps)
      as [[-> _]|(j & m & Hj & _ & _ & ->)]; [done|]. simpl.
    rewrite fmap_insert, list_fmap_insert.
    apply insert_id. rewrite lookup_fmap, Hps. simpl. f_equal.
    symmetry. apply list_insert_id. rewrite list_lookup_fmap, Hj. done.
  - by rewrite getCachedActions_absent.
Qed.

(** *** Clearing *)

(** After [clearUrlCache(url)] every lookup and every outcome report for
    that page finds nothing, the patterns of all other keys are as before,
    and clearing a key that is not there changes nothing. *)
Theorem clearUrlCache_forgets cache url :
  (forall now task,
      getCachedActions (clearUrlCache cache url) now url task
      = (None, clearUrlCache cache url))
  /\ (forall now label success,
        updatePatternConfidence (clearUrlCache cache url) now url label success
        = clearUrlCache cache url)
  /\ (forall key, key <> getCacheKey url ->
                  clearUrlCache cache url !! key = cache !! key)
  /\ (cache !! getCacheKey url = None -> clearUrlCache cache url = cache).
Proof.
  unfold clearUrlCache. split_and!.
  - intros now task. apply getCachedActions_absent, lookup_delete_eq.
  - intros now label success. apply updatePatternConfidence_not_found.
    by rewrite lookup_delete_eq.
  - intros key Hne. by apply lookup_delete_ne.
  - apply delete_id.
Qed.

(** After [clearAll] every lookup misses, every outcome report is ignored
    and the statistics are all zero. *)
Theorem clearAll_forgets cache now url task label success :
  getCachedActions (clearAll cache) now url task = (None, clearAll cache)
  /\ updatePatternConfidence (clearAll cache) now url label success = clearAll cache
  /\ getStats (clearAll cache) = mkStats 0 0 0 0.
Proof.
  unfold clearAll. split_and!.
  - apply getCachedActions_absent, lookup_empty.
  - apply updatePatternConfidence_not_found. by rewrite lookup_empty.
  - unfold getStats. by rewrite map_fold_empty, map_size_empty.
Qed.

(** *** Outcome reports *)

(** A report for a label that no pattern of the key carries (an absent key
    among them) changes nothing. *)
Theorem update_unknown_label_ignored cache now url label success :
  (forall patterns p,
      cache !! getCacheKey url = Some patterns -> p ∈ patterns -> pattern p <> label) ->
  updatePatternConfidence cache now url label success = cache.
Proof.
  intros Hnone. apply updatePatternConfidence_not_found.
  destruct (cache !! getCacheKey url) as [patterns|] eqn:Hps; [|done].
  apply list_find_None, Forall_forall. intros p Hp. by apply (Hnone patterns).
Qed.

(** Where several patterns of a key carry the label, a report counts for
    the first of them only: every other pattern of the key, and every other
    key, is as before. *)
Theorem update_first_with_label cache now url label success patterns i p :
  cache !! getCacheKey url = Some patterns ->
  findLabel label patterns = Some (i, p) ->
  let cache' := updatePatternConfidence cache now url label success in
  pattern p = label
  /\ (forall j q, j < i -> patterns !! j = Some q -> pattern q <> label)
  /\ (exists patterns',
        cache' !! getCacheKey url = Some patterns'
        /\ length patterns' = length patterns
        /\ patterns' !! i = Some (recalculate success now p)
        /\ forall j, j <> i -> patterns' !! j = patterns !! j)
  /\ (forall key, key <> getCacheKey url -> cache' !! key = cache !! key).
Proof.
  intros Hps Hf cache'. subst cache'.
  rewrite (updatePatternConfidence_found _ _ _ _ _ _ _ _ Hps Hf).
  apply list_find_Some in Hf as (Hi & Hl & Hfirst).
  split_and!; [done| |  |].
  - intros j q Hlt Hj. by apply (Hfirst j q).
  - eexists. split_and!.
    + apply lookup_insert_eq.
    + apply length_insert.
    + apply list_lookup_insert_eq. by eapply lookup_lt_Some.
    + intros j Hne. by apply list_lookup_insert_ne.
  - intros key Hne. by apply lookup_insert_ne.
Qed.

(** *** Keywords and the text they come from *)

Lemma append_String c s t : String c s +:+ t = String c (s +:+ t).
Proof. reflexivity. Qed.

Lemma startsWith_append k post : JSString.startsWith k (k +:+ post) = true.
Proof.
  induction k as [|c k IH]; [reflexivity|].
  rewrite append_String. simpl. by rewrite Ascii.eqb_refl, IH.
Qed.

Lemma includes_startsWith s k :
  JSString.startsWith k s = true -> JSString.includes s k = true.
Proof. intros H. destruct s; simpl; by rewrite H. Qed.

Lemma includes_append pre k post :
  JSString.includes (pre +:+ k +:+ post) k = true.
Proof.
  induction pre as [|c pre IH].
  - change (JSString.includes (k +:+ post) k = true).
    apply includes_startsWith, startsWith_append.
  - rewrite append_String. simpl. rewrite IH. apply orb_true_r.
Qed.

(** The first token of a split starts the text. *)
Lemma splitFrom_head s :
  exists t ts post, JSString.splitFrom false s = t :: ts /\ s = t +:+ post.
Proof.
  induction s as [|c s (t & ts & post & Hsplit & Hs)]; simpl.
  - by exists ""%string, [], ""%string.
  - destruct (JSString.isWhiteSpace c).
    + by exists ""%string, (JSString.splitFrom true s), (String c s).
    + rewrite Hsplit. exists (String c t), ts, post.
      split; [done|]. rewrite append_String. by f_equal.
Qed.

(** Every token of a split occurs in the text. *)
Lemma splitFrom_occurs s : forall run t,
  t ∈ JSString.splitFrom run s -> exists pre post, s = pre +:+ t +:+ post.
Proof.
  induction s as [|c s IH]; intros run t Ht; simpl in Ht.
  - apply list_elem_of_singleton in Ht as ->. by exists ""%string, ""%string.
  - destruct (JSString.isWhiteSpace c).
    + assert (t = ""%string \/ t ∈ JSString.splitFrom true s) as [->|Hin].
      { destruct run; [by right|].
        apply elem_of_cons in Ht as [->|?]; [by left|by right]. }
      * by exists ""%string, (String c s).
      * destruct (IH true t Hin) as (pre & post & ->).
        by exists (String c pre), post.
    + destruct (splitFrom_head s) as (t0 & ts & post0 & Hsplit & Hs).
      rewrite Hsplit in Ht. apply elem_of_cons in Ht as [->|Hin].
      * exists ""%string, post0. change (String c s = String c t0 +:+ post0).
        rewrite append_String. by f_equal.
      * destruct (IH false t) as (pre & post & ->).
        { rewrite Hsplit. by right. }
        by exists (String c pre), post.
Qed.

Lemma splitFrom_noWhiteSpace s : forall run t,
  t ∈ JSString.splitFrom run s -> hasWhiteSpace t = false.
Proof.
  induction s as [|c s IH]; intros run t Ht; simpl in Ht.
  - by apply list_elem_of_singleton in Ht as ->.
  - destruct (JSString.isWhiteSpace c) eqn:Hc.
    + assert (t = ""%string \/ t ∈ JSString.splitFrom true s) as [->|Hin].
      { destruct run; [by right|].
        apply elem_of_cons in Ht as [->|?]; [by left|by right]. }
      * done.
      * by apply (IH true).
    + destruct (JSString.splitFrom false s) as [|t0 ts] eqn:Hsplit.
      * apply list_elem_of_singleton in Ht as ->. simpl. by rewrite Hc.
      * apply elem_of_cons in Ht as [->|Hin].
        -- simpl. rewrite Hc. simpl. apply (IH false). rewrite Hsplit. by left.
        -- apply (IH false). rewrite Hsplit. by right.
Qed.

Lemma lowerChar_idemp c :
  JSString.lowerChar (JSString.lowerChar c) = JSString.lowerChar c.
Proof. destruct c as [[] [] [] [] [] [] [] []]; reflexivity. Qed.

Lemma toLowerCase_idemp s :
  JSString.toLowerCase (JSString.toLowerCase s) = JSString.toLowerCase s.
Proof. induction s as [|c s IH]; simpl; [done|]. by rewrite lowerChar_idemp, IH. Qed.

Lemma extractKeywords_tokens text k :
  k ∈ extractKeywords text ->
  k ∈ JSString.splitWhiteSpace (JSString.toLowerCase text).
Proof.
  unfold extractKeywords. intros Hk.
  apply subseteq_take in Hk. apply list_elem_of_filter in Hk. by destruct Hk.
Qed.

(** Every keyword extracted from a task description is in lower case and
    holds no white space. *)
Theorem extractKeywords_shape text k :
  k ∈ extractKeywords text ->
  JSString.toLowerCase k = k /\ hasWhiteSpace k = false.
Proof.
  intros Hk. apply extractKeywords_tokens in Hk. split.
  - unfold JSString.splitWhiteSpace in Hk. rewrite splitFrom_toLowerCase in Hk.
    apply list_elem_of_fmap in Hk as (t & -> & _). apply toLowerCase_idemp.
  - by apply (splitFrom_noWhiteSpace (JSString.toLowerCase text) false).
Qed.

Lemma extractKeywords_included text k :
  k ∈ extractKeywords text ->
  JSString.includes (JSString.toLowerCase text) k = true.
Proof.
  intros Hk. apply extractKeywords_tokens in Hk.
  destruct (splitFrom_occurs _ false k Hk) as (pre & post & ->).
  apply includes_append.
Qed.

Lemma isMatch_own_task text now (p : Pattern) :
  taskKeywords p = extractKeywords text ->
  extractKeywords text <> [] ->
  isMatch now (JSString.toLowerCase text) p = true <->
  (confidenceThreshold < confidence p)%R /\ (now - lastUsed p < ttl)%Z.
Proof.
  intros Hkw Hne. rewrite isMatch_true, Hkw. split; [by intros (_ & ? & ?)|].
  intros [Hc Ht]. split_and!; [|done|done].
  destruct (extractKeywords text) as [|k ks] eqn:E; [done|].
  exists k. split; [by left|]. apply extractKeywords_included. rewrite E. by left.
Qed.

(** Every keyword extracted from a task description occurs in the
    lower-cased description; so a pattern stored for a description that has
    a keyword passes the keyword test of a lookup with the same description,
    and the lookup decides on confidence and age alone. *)
Theorem keywords_match_own_task text :
  (forall k, k ∈ extractKeywords text ->
             JSString.includes (JSString.toLowerCase text) k = true)
  /\ (forall now (p : Pattern),
        taskKeywords p = extractKeywords text ->
        extractKeywords text <> [] ->
        (isMatch now (JSString.toLowerCase text) p = true <->
         (confidenceThreshold < confidence p)%R /\ (now - lastUsed p < ttl)%Z)).
Proof.
  split.
  - apply extractKeywords_included.
  - intros now p. apply isMatch_own_task.
Qed.

(** *** Confidence against the success rate and the age *)

Lemma recalculate_counts success now (p : Pattern) :
  0 < successCount (recalculate success now p)
      + failureCount (recalculate success now p).
Proof. destruct success; simpl; lia. Qed.

Lemma recalculate_between success now (p : Pattern) :
  (lastUsed p <= now)%Z ->
  let p' := recalculate success now p in
  let successRate :=
    (INR (successCount p') / INR (successCount p' + failureCount p'))%R in
  (successRate / 2 <= confidence p' <= successRate)%R.
Proof.
  intros Hclock p' successRate.
  pose proof (successRate_range _ _ (recalculate_counts success now p)) as Hrate.
  pose proof (decayFactor_range (now - lastUsed p) ltac:(lia)) as Hdecay.
  assert (confidence p'
          = (successRate * (0.5 + 0.5 * decayFactor (now - lastUsed p)))%R) as ->
      by reflexivity.
  fold p' successRate in Hrate. nra.
Qed.

(** After an outcome report made when the clock is not before the
    pattern's [lastUsed], the confidence lies between half the success rate
    and the success rate, and equals the success rate when no time has
    passed since the last use. *)
Theorem confidence_between_half_rate_and_rate success now (p : Pattern) :
  (lastUsed p <= now)%Z ->
  let p' := recalculate success now p in
  let successRate :=
    (INR (successCount p') / INR (successCount p' + failureCount p'))%R in
  (successRate / 2 <= confidence p' <= successRate)%R
  /\ (now = lastUsed p -> confidence p' = successRate).
Proof.
  intros Hclock p' successRate. split; [by apply recalculate_between|].
  intros ->.
  assert (confidence p'
          = (successRate * (0.5 + 0.5 * decayFactor (lastUsed p - lastUsed p)))%R) as ->
      by reflexivity.
  rewrite Z.sub_diag, decayFactor_0. lra.
Qed.

(** After an outcome report that leaves three times the successes at or
    below seventeen times the failures (a success rate of 0.85 or less), the
    pattern passes no lookup, at any time and for any task text. *)
Theorem failures_gate_pattern success now (p : Pattern) :
  (lastUsed p <= now)%Z ->
  let p' := recalculate success now p in
  3 * successCount p' <= 17 * failureCount p' ->
  (confidence p' <= confidenceThreshold)%R
  /\ forall now' keyword, isMatch now' keyword p' = false.
Proof.
  intros Hclock p' Hcount.
  assert (confidence p' <= confidenceThreshold)%R as Hle.
  { destruct (recalculate_between success now p Hclock) as [_ Hrate].
    fold p' in Hrate. etransitivity; [exact Hrate|].
    pose proof (recalculate_counts success now p) as Hpos. fold p' in Hpos.
    assert (0 < INR (successCount p' + failureCount p'))%R as Ht
        by (apply lt_0_INR; lia).
    assert (20 * INR (successCount p')
            <= 17 * INR (successCount p' + failureCount p'))%R as Hreal.
    { rewrite plus_INR.
      assert (INR (3 * successCount p') <= INR (17 * failureCount p'))%R as H
          by (by apply le_INR).
      rewrite !mult_INR in H.
      replace (INR 3) with 3%R in H by (simpl; lra).
      replace (INR 17) with 17%R in H by (simpl; lra). lra. }
    unfold confidenceThreshold.
    apply (Rmult_le_reg_r (INR (successCount p' + failureCount p'))); [done|].
    unfold Rdiv at 1. rewrite Rmult_assoc, Rinv_l by lra. lra. }
  split; [done|]. intros now' keyword. by apply isMatch_at_threshold.
Qed.

Lemma decayFactor_day timeSinceUsed :
  (86400000 <= timeSinceUsed)%Z -> (decayFactor timeSinceUsed <= / 2)%R.
Proof.
  intros Hday. unfold decayFactor.
  replace (IZR (24 * 60 * 60 * 1000)) with 86400000%R by reflexivity.
  assert (86400000 <= IZR timeSinceUsed)%R as Hreal by (by apply IZR_le in Hday).
  assert (- IZR timeSinceUsed / 86400000 <= Ropp 1)%R as Hx by lra.
  assert (exp (- IZR timeSinceUsed / 86400000) <= exp (Ropp 1))%R as Hexp.
  { destruct Hx as [Hlt|Heq]; [left; by apply exp_increasing|rewrite Heq; lra]. }
  etransitivity; [exact Hexp|]. rewrite exp_Ropp.
  apply Rinv_le_contravar; [lra|].
  pose proof (exp_ineq1_le 1). lra.
Qed.

Lemma recalculate_stale success now (p : Pattern) :
  (lastUsed p + 86400000 <= now)%Z ->
  (confidence (recalculate success now p) <= 0.75)%R.
Proof.
  intros Hday.
  pose proof (successRate_range _ _ (recalculate_counts success now p)) as Hrate.
  pose proof (decayFactor_day (now - lastUsed p) ltac:(lia)) as Hdecay.
  pose proof (decayFactor_range (now - lastUsed p) ltac:(lia)) as Hpos.
  assert (confidence (recalculate success now p)
          = (INR (successCount (recalculate success now p))
             / INR (successCount (recalculate success now p)
                    + failureCount (recalculate success now p))
             * (0.5 + 0.5 * decayFactor (now - lastUsed p)))%R) as ->
      by reflexivity.
  nra.
Qed.

Lemma recalculateAll_lastUsed reports : forall (p : Pattern),
  lastUsed (recalculateAll reports p) = lastUsed p.
Proof.
  induction reports as [|[success now] reports IH]; intros p; simpl; [done|].
  by rewrite IH.
Qed.

(** The update never refreshes [lastUsed], so a pattern last used a day
    ago or more is beyond recovery by outcome reports: after any such
    reports, all successes even, its confidence is at most 0.75 and it
    passes no lookup. *)
Theorem stale_pattern_stays_gated reports (p : Pattern) :
  reports <> [] ->
  Forall (fun report => (lastUsed p + 86400000 <= snd report)%Z) reports ->
  let p' := recalculateAll reports p in
  lastUsed p' = lastUsed p
  /\ (confidence p' <= 0.75)%R
  /\ forall now' keyword, isMatch now' keyword p' = false.
Proof.
  intros Hne Hall p'.
  assert (confidence p' <= 0.75)%R as Hconf.
  { subst p'. revert p Hne Hall.
    induction reports as [|[success now] reports IH]; intros p Hne Hall; [done|].
    inversion Hall as [|? ? Hnow Hrest]; subst. simpl in *.
    destruct reports as [|r reports].
    - by apply recalculate_stale.
    - apply IH; [done|]. exact Hrest. }
  split_and!; [apply recalculateAll_lastUsed|done|].
  intros now' keyword. apply isMatch_at_threshold. unfold confidenceThreshold. lra.
Qed.

(** *** From a store to a hit *)

Lemma decayFactor_within_ttl timeSinceUsed :
  (0 <= timeSinceUsed < ttl)%Z -> (0.99 < decayFactor timeSinceUsed)%R.
Proof.
  intros [Hlo Hhi]. unfold decayFactor, ttl in *.
  replace (IZR (24 * 60 * 60 * 1000)) with 86400000%R by reflexivity.
  assert (IZR timeSinceUsed < 300000)%R as Hreal
      by (apply IZR_lt in Hhi; exact Hhi).
  pose proof (exp_ineq1_le (- IZR timeSinceUsed / 86400000)) as Hexp.
  lra.
Qed.

(** How a stored pattern comes to be served: a store under a key that
    holds nothing, then one report of success under the pattern's label,
    then a lookup with the same task description, the last two less than
    [ttl] after the store, return the stored actions. The task description
    must have a keyword. *)
Theorem store_report_lookup cache url task acts label t t1 t2 cache1 :
  cache !! getCacheKey url = None ->
  cacheSuccessfulPattern cache t url task acts label = Some cache1 ->
  extractKeywords task <> [] ->
  (t <= t1 < t + ttl)%Z ->
  (t <= t2 < t + ttl)%Z ->
  let cache2 :=
    updatePatternConfidence cache1 t1 url
      (patternLabel label (extractKeywords task)) true in
  fst (getCachedActions cache2 t2 url task) = Some acts.
Proof.
  intros Hnone Hstore Hkw Ht1 Ht2 cache2.
  set (key := getCacheKey url) in *.
  set (new := newPattern key t url (extractKeywords task) acts label).
  assert (cache1 = <[key := [new]]> cache) as Hc1.
  { destruct (cacheSuccessfulPattern_inv _ _ _ _ _ _ _ Hstore) as [Hre _].
    rewrite cacheSuccessfulPattern_appends in Hstore;
      [|done|fold key; rewrite Hnone; unfold maxCacheSize; simpl; lia].
    fold key in Hstore. rewrite Hnone in Hstore. by injection Hstore as <-. }
  assert (cache2 = <[key := [recalculate true t1 new]]> cache1) as Hc2.
  { subst cache2. rewrite (updatePatternConfidence_found _ _ _ _ _ [new] 0 new).
    - done.
    - fold key. rewrite Hc1. apply lookup_insert_eq.
    - apply list_find_Some. split_and!; [done|done|]. intros j q Hj Hlt. lia. }
  rewrite (getCachedActions_hit_first cache2 t2 url task
             [recalculate true t1 new] 0 (recalculate true t1 new)).
  - done.
  - fold key. rewrite Hc2. apply lookup_insert_eq.
  - done.
  - apply isMatch_own_task; [done|done|]. split.
    + pose proof (decayFactor_within_ttl (t1 - t) ltac:(lia)) as Hdecay.
      unfold confidenceThreshold.
      assert (confidence (recalculate true t1 new)
              = (INR 2 / INR 2 * (0.5 + 0.5 * decayFactor (t1 - t)))%R) as ->
          by reflexivity.
      simpl INR. lra.
    + simpl. lia.
  - intros i p Hlt. lia.
Qed.

(** *** Stores *)

(** What a store does. Where the regular expression is refused it throws
    and the cache stays as it was. Otherwise it returns; no other key
    changes; and where the key held fewer than [maxCacheSize] patterns, the
    new pattern goes behind the ones already there, which keep their places
    and so their precedence in lookups. The new pattern counts one success,
    no failure, was last used now and has confidence 0.85. *)
Theorem store_outcome cache now url task acts label :
  let key := getCacheKey url in
  let old := default [] (cache !! key) in
  let new := newPattern key now url (extractKeywords task) acts label in
  (regExpValid (urlToPattern url) = false ->
   cacheSuccessfulPattern cache now url task acts label = None
   /\ step cache now (CacheSuccessfulPattern url task acts label) = cache)
  /\ (regExpValid (urlToPattern url) = true ->
      exists cache',
        cacheSuccessfulPattern cache now url task acts label = Some cache'
        /\ (forall k, k <> key -> cache' !! k = cache !! k)
        /\ (length old < maxCacheSize -> cache' !! key = Some (old ++ [new])))
  /\ successCount new = 1 /\ failureCount new = 0
  /\ lastUsed new = now /\ confidence new = 0.85%R /\ actions new = acts.
Proof.
  intros key old new. split_and!; try done.
  - intros Hre. simpl. by rewrite cacheSuccessfulPattern_throws.
  - intros Hre.
    destruct (cacheSuccessfulPattern_is_Some cache now url task acts label Hre)
      as [cache' Hstore].
    exists cache'. split; [done|]. split.
    + apply cacheSuccessfulPattern_inv in Hstore as [_ ->].
      intros k Hne. by apply lookup_insert_ne.
    + intros Hlen. rewrite cacheSuccessfulPattern_appends in Hstore by done.
      injection Hstore as <-. apply lookup_insert_eq.
Qed.

Lemma insertByConfidence_snoc (x new : Pattern) l :
  (confidence new <= confidence x)%R ->
  insertByConfidence x (l ++ [new]) = insertByConfidence x l ++ [new].
Proof.
  intros Hle. induction l as [|y l IH]; simpl.
  - by rewrite (proj2 (Rleb_true _ _) Hle).
  - destruct (Rleb (confidence y) (confidence x)); [done|]. by rewrite IH.
Qed.

Lemma sortByConfidence_snoc (new : Pattern) l :
  Forall (fun q => (confidence new <= confidence q)%R) l ->
  sortByConfidence (l ++ [new]) = sortByConfidence l ++ [new].
Proof.
  induction 1 as [|x l Hx Hl IH]; simpl; [done|].
  by rewrite IH, insertByConfidence_snoc.
Qed.

Lemma StronglySorted_removelast (l : list Pattern) :
  StronglySorted byConfidence l -> StronglySorted byConfidence (removelast l).
Proof.
  induction 1 as [|x l Hl IH Hx]; simpl; [constructor|].
  destruct l as [|y l]; [constructor|].
  constructor; [exact IH|].
  change (y :: l) with ([] ++ y :: l) in Hx.
  rewrite removelast_firstn_len. by apply Forall_take.
Qed.

(** A store into a full key leaves the key's list in descending order of
    confidence. *)
Theorem eviction_leaves_sorted cache now url task acts label cache' :
  cacheSuccessfulPattern cache now url task acts label = Some cache' ->
  maxCacheSize <= length (default [] (cache !! getCacheKey url)) ->
  exists kept,
    cache' !! getCacheKey url = Some kept
    /\ StronglySorted (fun a b => (confidence b <= confidence a)%R) kept.
Proof.
  intros Hstore Hfull. apply cacheSuccessfulPattern_inv in Hstore as [_ ->].
  cbv zeta. rewrite decide_True by (rewrite length_app; simpl; lia).
  eexists. split; [apply lookup_insert_eq|].
  apply StronglySorted_removelast, sortByConfidence_sorted.
Qed.

(** Admission to a full key. Where every pattern of the key has a
    confidence of 0.85 or more, the sort puts the new pattern last and the
    eviction drops it: the key keeps exactly its old patterns. Where some
    pattern has a confidence below 0.85, the new pattern stays. *)
Theorem full_key_admission cache now url task acts label cache' :
  let key := getCacheKey url in
  let old := default [] (cache !! key) in
  let new := newPattern key now url (extractKeywords task) acts label in
  cacheSuccessfulPattern cache now url task acts label = Some cache' ->
  maxCacheSize <= length old ->
  (Forall (fun q => (0.85 <= confidence q)%R) old ->
   cache' !! key = Some (sortByConfidence old))
  /\ (Exists (fun q => (confidence q < 0.85)%R) old ->
      exists kept, cache' !! key = Some kept /\ new ∈ kept).
Proof.
  intros key old new Hstore Hfull.
  apply cacheSuccessfulPattern_inv in Hstore as [_ ->].
  cbv zeta. fold key old new.
  rewrite decide_True by (rewrite length_app; simpl; lia).
  rewrite lookup_insert_eq. split.
  - intros Hall. f_equal.
    rewrite sortByConfidence_snoc by exact Hall. apply removelast_last.
  - intros Hlow. eexists. split; [done|].
    destruct (sort_pop (old ++ [new])) as (victim & Hperm & Hmin).
    { by destruct old. }
    assert (new ∈ removelast (sortByConfidence (old ++ [new])) ++ [victim]) as Hin.
    { rewrite <- Hperm. apply elem_of_app. right. by left. }
    apply elem_of_app in Hin as [Hin|Hin]; [done|].
    apply list_elem_of_singleton in Hin as <-.
    apply Exists_exists in Hlow as (q & Hq & Hlt).
    rewrite Forall_forall in Hmin.
    assert (confidence new <= confidence q)%R as Hle
        by (apply Hmin, elem_of_app; by left).
    simpl in Hle. lra.
Qed.

(** *** The source of the regular expression *)

Lemma substring0_substring0 n m s :
  n <= m ->
  JSString.substring 0 n (JSString.substring 0 m s) = JSString.substring 0 n s.
Proof.
  unfold JSString.substring. rewrite !Nat.min_0_l, !Nat.max_0_l, !Nat.sub_0_r.
  revert n m; induction s as [|c s IH]; intros [|n] [|m] Hle; simpl; try done; try lia.
  f_equal. apply IH. lia.
Qed.

Lemma length_append a b :
  String.length (a +:+ b) = String.length a + String.length b.
Proof. induction a as [|c a IH]; [done|]. rewrite append_String. simpl. by rewrite IH. Qed.

Lemma append_assoc a b c : (a +:+ b) +:+ c = a +:+ (b +:+ c).
Proof. induction a as [|x a IH]; [done|]. rewrite !append_String. by rewrite IH. Qed.

(** The text handed to [new RegExp]. For an identifier that does not
    parse it is the first 50 code units of the identifier, which are also
    the first 50 code units of the cache key. For one that parses it is the
    whole host name followed by the first 50 code units of the path (the
    whole path where it is shorter), whatever the length of the host
    name. *)
Theorem urlToPattern_prefix url :
  (parseURL url = None ->
   urlToPattern url = JSString.substring 0 50 (getCacheKey url)
   /\ String.length (urlToPattern url) = Nat.min 50 (String.length url)
   /\ exists rest, url = urlToPattern url +:+ rest)
  /\ (forall urlObj, parseURL url = Some urlObj ->
        exists path rest,
          urlToPattern url = hostname urlObj +:+ path
          /\ pathname urlObj = path +:+ rest
          /\ String.length path = Nat.min 50 (String.length (pathname urlObj))
          /\ String.length (urlToPattern url)
             = String.length (hostname urlObj)
               + Nat.min 50 (String.length (pathname urlObj))).
Proof.
  unfold urlToPattern, getCacheKey. split.
  - intros ->. split_and!.
    + by rewrite substring0_substring0 by lia.
    + apply length_substring0.
    + apply substring_prefix.
  - intros u ->.
    destruct (substring_prefix 50 (pathname u)) as [rest Hrest].
    exists (JSString.substring 0 50 (pathname u)), rest. split_and!.
    + done.
    + exact Hrest.
    + apply length_substring0.
    + by rewrite length_append, length_substring0.
Qed.

End Cache.

(** ** Scenarios on the concrete platform *)

(** C1. Scenario A on the code: the pattern is stored with confidence
    0.85, the lookup asks for a confidence above 0.85, and so the lookup
    that follows the store at once misses. *)
Theorem scenarioA_lookup_misses :
  let cache :=
    run Demo.parseURL Demo.regExpValid ∅
        [(1000%Z, CacheSuccessfulPattern "K" "github portfolio" ["A1"; "A2"] None)] in
  cache = {[ "K" := [Demo.stored] ]}
  /\ taskKeywords Demo.stored = ["github"; "portfolio"]
  /\ actions Demo.stored = ["A1"; "A2"]
  /\ getCachedActions Demo.parseURL cache 1000 "K" "please open my github" = (None, cache).
Proof.
  intros cache.
  assert (cache = {[ "K" := [Demo.stored] ]}) as Hc by reflexivity.
  split_and!; try done.
  apply (getCachedActions_miss Demo.parseURL cache 1000 "K" _ [Demo.stored]).
  - by rewrite Hc.
  - apply Forall_singleton, isMatch_at_threshold.
    unfold confidenceThreshold. simpl. lra.
Qed.

(** The same lookup after one report of success made at the time of the
    store: the confidence is 1 and the lookup returns the actions. *)
Lemma scenarioA_hits_after_update :
  let cache :=
    run Demo.parseURL Demo.regExpValid ∅
        [(1000%Z, CacheSuccessfulPattern "K" "github portfolio" ["A1"; "A2"] None);
         (1000%Z, UpdatePatternConfidence "K" "pattern_github" true)] in
  fst (getCachedActions Demo.parseURL cache 1000 "K" "please open my github")
  = Some ["A1"; "A2"].
Proof.
  intros cache.
  assert (cache = {[ "K" := [recalculate true 1000 Demo.stored] ]}) as Hc
      by reflexivity.
  rewrite (getCachedActions_first Demo.parseURL cache 1000 "K" _
             (recalculate true 1000 Demo.stored) []); [done|by rewrite Hc|].
  apply isMatch_true. split_and!.
  - exists "github". split; [apply list_elem_of_here|reflexivity].
  - unfold recalculate, confidenceThreshold.
    cbn [confidence successCount failureCount lastUsed Demo.stored].
    replace (1000 - 1000)%Z with 0%Z by lia. rewrite decayFactor_0.
    simpl INR. lra.
  - reflexivity.
Qed.

(** A store whose regular expression is refused throws and leaves the
    cache alone. *)
Lemma store_throws_on_bad_regexp :
  cacheSuccessfulPattern Demo.parseURL Demo.regExpValid
    ({[ "K" := [Demo.stored] ]}) 1000 "(" "github portfolio" ["A1"] None = None.
Proof. reflexivity. Qed.

(** *** Instances of the properties *)

Lemma threshold_gating_witness :
  getCachedActions Demo.parseURL ({[ "K" := [Demo.stored] ]}) 1000 "K"
                   "please open my github"
  = (None, {[ "K" := [Demo.stored] ]}).
Proof.
  destruct (threshold_gating Demo.parseURL ({[ "K" := [Demo.stored] ]}) 1000 "K"
              "please open my github" [Demo.stored] 0 Demo.stored)
    as [Hmiss|(j & m & Hne & Hj & _)].
  - reflexivity.
  - reflexivity.
  - unfold confidenceThreshold. simpl. lra.
  - exact Hmiss.
  - destruct j as [|j]; [congruence|]. simpl in Hj. discriminate.
Defined.

Lemma ttl_miss_witness :
  getCachedActions Demo.parseURL ({[ "K" := [Demo.trusted] ]}) 301000 "K"
                   "please open my github"
  = (None, {[ "K" := [Demo.trusted] ]}).
Proof.
  destruct (ttl_miss Demo.parseURL ({[ "K" := [Demo.trusted] ]}) 301000 "K"
              "please open my github" [Demo.trusted] 0 Demo.trusted)
    as [Hmiss|(j & m & Hne & Hj & _)].
  - reflexivity.
  - reflexivity.
  - unfold confidenceThreshold. simpl. lra.
  - vm_compute. discriminate.
  - exact Hmiss.
  - destruct j as [|j]; [congruence|]. simpl in Hj. discriminate.
Defined.

Lemma empty_keywords_never_match_witness :
  (exists stored,
      taskKeywords stored = [] /\ actions stored = ["A1"]
      /\ ({[ "K" := [Demo.unkeyed] ]} : gmap string (list (CachedActionPattern Demo.Action)))
         !! "K" = Some [stored])
  /\ getCachedActions Demo.parseURL ({[ "K" := [Demo.mute] ]}) 1000 "K" "go to it"
     = (None, {[ "K" := [Demo.mute] ]}).
Proof.
  destruct (@empty_keywords_never_match Demo.Action Demo.parseURL Demo.regExpValid)
    as (Hstore & Hlookup & _).
  split.
  - destruct (Hstore ∅ 1000%Z "K" "Go TO it" ["A1"] None ({[ "K" := [Demo.unkeyed] ]}))
      as (stored & kept & Hkw & Hacts & Hkept & Hlen & _).
    + repeat (constructor; [simpl; lia|]). constructor.
    + reflexivity.
    + exists stored. split_and!; [exact Hkw|exact Hacts|].
      rewrite Hlen in Hkept by (vm_compute; lia). exact Hkept.
  - destruct (Hlookup ({[ "K" := [Demo.mute] ]}) 1000%Z "K" "go to it"
                      [Demo.mute] 0 Demo.mute)
      as [Hmiss|(j & m & Hne & Hj & _)].
    + reflexivity.
    + reflexivity.
    + reflexivity.
    + exact Hmiss.
    + destruct j as [|j]; [congruence|]. simpl in Hj. discriminate.
Defined.


Lemma update_keeps_lastUsed_witness :
  exists p',
    updatePatternConfidence Demo.parseURL ({[ "K" := [Demo.stored] ]}) 5000
                            "K" "pattern_github" true !! "K"
    = Some [p']
    /\ lastUsed p' = 1000%Z
    /\ successCount p' + failureCount p' = 2.
Proof.
  destruct (update_keeps_lastUsed Demo.parseURL ({[ "K" := [Demo.stored] ]}) 5000
              "K" "pattern_github" true [Demo.stored] 0 Demo.stored)
    as (p' & Hcache & Hlast & Hcount & _).
  - reflexivity.
  - reflexivity.
  - exists p'. split_and!; [exact Hcache|exact Hlast|exact Hcount].
Defined.

(** C2, refuted as stated: an update made when the clock reads 5000 on a
    pattern last used at 1000 does not leave a pattern whose [lastUsed] is
    5000. *)
Lemma update_sets_lastUsed_cex :
  ~ exists p',
      updatePatternConfidence Demo.parseURL ({[ "K" := [Demo.stored] ]}) 5000
                              "K" "pattern_github" true !! "K"
      = Some [p']
      /\ lastUsed p' = 5000%Z.
Proof.
  intros (p' & Hcache & Hlast).
  assert (updatePatternConfidence Demo.parseURL ({[ "K" := [Demo.stored] ]}) 5000
            "K" "pattern_github" true !! "K"
          = Some [recalculate true 5000 Demo.stored]) as Hrun by reflexivity.
  rewrite Hrun in Hcache. injection Hcache as <-.
  simpl in Hlast. discriminate.
Qed.

Lemma eviction_drops_lowest_witness :
  exists cache' kept victim,
    cacheSuccessfulPattern Demo.parseURL Demo.regExpValid Demo.full 2000 "K"
                           "github portfolio" ["A1"] None = Some cache'
    /\ cache' !! "K" = Some kept
    /\ Permutation
         (replicate 100 Demo.trusted
          ++ [newPattern Demo.parseURL "K" 2000 "K"
                (extractKeywords "github portfolio") ["A1"] None])
         (kept ++ [victim])
    /\ length kept = 100.
Proof.
  destruct (cacheSuccessfulPattern_is_Some Demo.parseURL Demo.regExpValid Demo.full
              2000 "K" "github portfolio" ["A1"] None eq_refl) as [cache' Hstore].
  destruct (eviction_drops_lowest Demo.parseURL Demo.regExpValid Demo.full 2000 "K"
              "github portfolio" ["A1"] None cache' Hstore)
    as (kept & victim & Hkept & Hperm & _ & Hlen).
  - vm_compute. lia.
  - exists cache', kept, victim.
    split_and!; [exact Hstore|exact Hkept|exact Hperm|exact Hlen].
Defined.

Lemma bounded_size_witness :
  length [Demo.stored] <= maxCacheSize /\ maxCacheSize = 100.
Proof.
  apply (bounded_size Demo.parseURL Demo.regExpValid
           [(1000%Z, CacheSuccessfulPattern "K" "github portfolio" ["A1"; "A2"] None)]
           "K" [Demo.stored]).
  reflexivity.
Defined.

Lemma confidence_range_witness :
  (0 <= confidence (recalculate true 2000 Demo.stored) <= 1)%R
  /\ (0 <= decayFactor (2000 - 1000) <= 1)%R.
Proof.
  destruct (@confidence_range Demo.Action Demo.parseURL Demo.regExpValid)
    as [Hone Hall].
  split.
  - apply (Hall 0%Z
             [(1000%Z, CacheSuccessfulPattern "K" "github portfolio" ["A1"; "A2"] None);
              (2000%Z, UpdatePatternConfidence "K" "pattern_github" true)]
             "K" [recalculate true 2000 Demo.stored]).
    + simpl. lia.
    + reflexivity.
    + apply list_elem_of_here.
  - destruct (Hone true 2000%Z Demo.stored) as (_ & Hdecay & _).
    + simpl. lia.
    + exact Hdecay.
Defined.

(** C5, refuted as stated: a pattern is stored, the clock is then set
    back by a day, and a success is reported; the elapsed time is negative,
    the decay factor is [exp 1], and the confidence of the pattern in the
    cache is above 1. *)
Lemma confidence_range_cex :
  exists patterns p,
    run Demo.parseURL Demo.regExpValid ∅
        [(86401000%Z, CacheSuccessfulPattern "K" "github portfolio" ["A1"; "A2"] None);
         (1000%Z, UpdatePatternConfidence "K" "pattern_github" true)] !! "K"
    = Some patterns
    /\ p ∈ patterns
    /\ ~ (0 <= confidence p <= 1)%R.
Proof.
  set (fresh := mkPattern (Action := Demo.Action) "K_86401000" "pattern_github" "K"
                  ["github"; "portfolio"] ["A1"; "A2"] 1 0 86401000 0.85%R).
  exists [recalculate true 1000 fresh], (recalculate true 1000 fresh).
  split_and!; [reflexivity|apply list_elem_of_here|].
  intros [_ Hle].
  change ((INR 2 / INR 2 * (0.5 + 0.5 * decayFactor (1000 - 86401000)))%R <= 1)%R
    in Hle.
  assert (decayFactor (1000 - 86401000) = exp 1) as Hdecay.
  { unfold decayFactor. f_equal.
    replace (IZR (24 * 60 * 60 * 1000)) with 86400000%R by reflexivity.
    replace (IZR (1000 - 86401000)) with (-86400000)%R by reflexivity. lra. }
  rewrite Hdecay in Hle. pose proof (exp_ineq1 1 ltac:(lra)). simpl INR in Hle. lra.
Qed.

(** C3, refuted as stated: after the store of a task description whose
    tokens are all short, the cache holds a pattern with an empty keyword
    list. *)
Lemma keywords_never_empty_cex :
  ~ keywordsNeverEmpty
      (run Demo.parseURL Demo.regExpValid ∅
         [(1000%Z, CacheSuccessfulPattern "K" "go to it" ["A1"] None)]).
Proof.
  intros Hclaim.
  apply (Hclaim "K" [Demo.unkeyed] Demo.unkeyed).
  - reflexivity.
  - apply list_elem_of_here.
  - reflexivity.
Qed.

Lemma keywords_from_extraction_witness :
  (exists stored,
      cacheSuccessfulPattern Demo.parseURL Demo.regExpValid ∅ 1000 "K" "go to it"
                             ["A1"] None
      = Some (<["K" := [stored]]> ∅)
      /\ taskKeywords stored = [])
  /\ length (taskKeywords Demo.unkeyed) <= 5.
Proof.
  destruct (@keywords_from_extraction Demo.Action Demo.parseURL Demo.regExpValid)
    as [Hstore Hall].
  split.
  - destruct (Hstore ∅ 1000%Z "K" "go to it" ["A1"] None) as (stored & Hc & Hk).
    + reflexivity.
    + vm_compute. lia.
    + exists stored. split; [exact Hc|exact Hk].
  - destruct (Hall [(1000%Z, CacheSuccessfulPattern "K" "go to it" ["A1"] None)]
                   "K" [Demo.unkeyed] Demo.unkeyed) as (_ & Hlen & _).
    + reflexivity.
    + apply list_elem_of_here.
    + exact Hlen.
Defined.

(** *** Instances of the further properties *)

Lemma reachable_patterns_counted_witness :
  [Demo.stored] <> []
  /\ Forall (fun p => 1 <= successCount p
                      /\ 1 <= successCount p + failureCount p
                      /\ pattern p <> ""%string) [Demo.stored].
Proof.
  apply (reachable_patterns_counted Demo.parseURL Demo.regExpValid
           [(1000%Z, CacheSuccessfulPattern "K" "github portfolio" ["A1"; "A2"] None)]
           "K" [Demo.stored]).
  reflexivity.
Defined.

Lemma getStats_after_update_witness :
  totalHits (getStats (updatePatternConfidence Demo.parseURL
                         ({[ "K" := [Demo.stored] ]}) 5000 "K" "pattern_github" true))
  = totalHits (getStats ({[ "K" := [Demo.stored] ]})) + 1.
Proof.
  pose proof (getStats_after_update Demo.parseURL ({[ "K" := [Demo.stored] ]}) 5000
                "K" "pattern_github" true [Demo.stored] 0 Demo.stored
                eq_refl eq_refl) as H.
  cbv zeta in H. destruct H as (_ & _ & H). exact H.
Defined.

Lemma getStats_after_store_witness :
  totalPatterns (getStats ({[ "K" := [Demo.stored] ]}))
  = totalPatterns (getStats (∅ : gmap string (list (CachedActionPattern Demo.Action)))) + 1.
Proof.
  destruct (getStats_after_store Demo.parseURL Demo.regExpValid ∅ 1000 "K"
              "github portfolio" ["A1"; "A2"] None ({[ "K" := [Demo.stored] ]}))
    as [H _].
  - reflexivity.
  - exact H.
Defined.

Lemma getStats_reachable_witness :
  (1 <= estimatedHitRate
          (getStats (run Demo.parseURL Demo.regExpValid ∅
                       [(1000%Z, CacheSuccessfulPattern "K" "github portfolio"
                                   ["A1"; "A2"] None)])))%R.
Proof.
  pose proof (getStats_reachable Demo.parseURL Demo.regExpValid
                [(1000%Z, CacheSuccessfulPattern "K" "github portfolio"
                            ["A1"; "A2"] None)]) as H.
  cbv zeta in H. destruct H as (_ & _ & _ & H & _).
  apply H. vm_compute. lia.
Defined.

Lemma demo_trusted_matches :
  isMatch 1000 (JSString.toLowerCase "please open my github") Demo.trusted = true.
Proof.
  apply isMatch_true. split_and!.
  - exists "github". split; [by left|reflexivity].
  - unfold confidenceThreshold. simpl. lra.
  - reflexivity.
Defined.

Lemma lookup_first_match_witness :
  fst (getCachedActions Demo.parseURL ({[ "K" := [Demo.trusted] ]}) 1000 "K"
                        "please open my github")
  = Some ["A1"; "A2"].
Proof.
  destruct (lookup_first_match Demo.parseURL ({[ "K" := [Demo.trusted] ]}) 1000 "K"
              "please open my github") as [Hhit _].
  assert (forall i (p : CachedActionPattern Demo.Action),
             i < 0 -> [Demo.trusted] !! i = Some p ->
             isMatch 1000 (JSString.toLowerCase "please open my github") p = false)
    as Hfirst by (intros i p Hlt; lia).
  exact (f_equal fst (Hhit [Demo.trusted] 0 Demo.trusted eq_refl eq_refl
                           demo_trusted_matches Hfirst)).
Defined.

Lemma hit_repeats_within_ttl_witness :
  exists cache'',
    getCachedActions Demo.parseURL
      (<[ "K" := [setLastUsed 1000 Demo.trusted] ]> ({[ "K" := [Demo.trusted] ]}))
      2000 "K" "please open my github"
    = (Some ["A1"; "A2"], cache'').
Proof.
  apply (hit_repeats_within_ttl Demo.parseURL ({[ "K" := [Demo.trusted] ]}) 1000 "K"
           "please open my github" ["A1"; "A2"] _ 2000).
  - apply (getCachedActions_first Demo.parseURL _ 1000 "K" _ Demo.trusted []).
    + reflexivity.
    + exact demo_trusted_matches.
  - unfold ttl. lia.
Defined.

Lemma clearUrlCache_forgets_witness :
  getCachedActions Demo.parseURL
    (clearUrlCache Demo.parseURL ({[ "K" := [Demo.trusted] ]}) "K") 1000 "K"
    "please open my github"
  = (None, clearUrlCache Demo.parseURL ({[ "K" := [Demo.trusted] ]}) "K")
  /\ clearUrlCache Demo.parseURL ({[ "K" := [Demo.trusted] ]}) "L" !! "K"
     = Some [Demo.trusted]
  /\ clearUrlCache Demo.parseURL
       (∅ : gmap string (list (CachedActionPattern Demo.Action))) "K" = ∅.
Proof.
  split_and!.
  - destruct (clearUrlCache_forgets Demo.parseURL ({[ "K" := [Demo.trusted] ]}) "K")
      as (H & _). apply H.
  - destruct (clearUrlCache_forgets Demo.parseURL ({[ "K" := [Demo.trusted] ]}) "L")
      as (_ & _ & H & _). rewrite H; [reflexivity|]. vm_compute. discriminate.
  - destruct (clearUrlCache_forgets Demo.parseURL
                (∅ : gmap string (list (CachedActionPattern Demo.Action))) "K")
      as (_ & _ & _ & H). apply H. reflexivity.
Defined.

Lemma update_unknown_label_ignored_witness :
  updatePatternConfidence Demo.parseURL ({[ "K" := [Demo.stored] ]}) 5000 "K"
                          "some_other_label" false
  = {[ "K" := [Demo.stored] ]}.
Proof.
  apply update_unknown_label_ignored.
  intros patterns p Hps Hp.
  assert (Some [Demo.stored] = Some patterns) as [= <-] by exact Hps.
  apply list_elem_of_singleton in Hp as ->. simpl. discriminate.
Defined.

Lemma update_first_with_label_witness :
  exists patterns',
    updatePatternConfidence Demo.parseURL ({[ "K" := [Demo.stored; Demo.stored] ]})
                            5000 "K" "pattern_github" true !! "K"
    = Some patterns'
    /\ patterns' !! 0 = Some (recalculate true 5000 Demo.stored)
    /\ patterns' !! 1 = Some Demo.stored.
Proof.
  pose proof (update_first_with_label Demo.parseURL
                ({[ "K" := [Demo.stored; Demo.stored] ]}) 5000 "K" "pattern_github"
                true [Demo.stored; Demo.stored] 0 Demo.stored eq_refl eq_refl) as H.
  cbv zeta in H. destruct H as (_ & _ & (patterns' & Hc & _ & H0 & Hrest) & _).
  exists patterns'. split_and!; [exact Hc|exact H0|].
  rewrite Hrest by lia. reflexivity.
Defined.

Lemma extractKeywords_shape_witness :
  JSString.toLowerCase "github" = "github" /\ hasWhiteSpace "github" = false.
Proof.
  apply (extractKeywords_shape "Open  GitHub now" "github").
  change ("github" ∈ ["open"; "github"]). right. left.
Defined.

Lemma keywords_match_own_task_witness :
  JSString.includes (JSString.toLowerCase "Open  GitHub now") "github" = true
  /\ (isMatch 1000 (JSString.toLowerCase "github portfolio") Demo.trusted = true <->
      (confidenceThreshold < confidence Demo.trusted)%R
      /\ (1000 - lastUsed Demo.trusted < ttl)%Z).
Proof.
  split.
  - destruct (keywords_match_own_task (Action:=Demo.Action) "Open  GitHub now")
      as [H _].
    apply H. change ("github" ∈ ["open"; "github"]). right. left.
  - destruct (keywords_match_own_task (Action:=Demo.Action) "github portfolio")
      as [_ H].
    apply H; [reflexivity|]. vm_compute. discriminate.
Defined.

Lemma confidence_between_half_rate_and_rate_witness :
  (INR 2 / INR 2 / 2 <= confidence (recalculate true 2000 Demo.stored) <= INR 2 / INR 2)%R.
Proof.
  pose proof (confidence_between_half_rate_and_rate true 2000 Demo.stored) as H.
  cbv zeta in H. destruct H as [H _]; [simpl; lia|]. exact H.
Defined.

Lemma failures_gate_pattern_witness :
  (confidence (recalculate false 1000 Demo.stored) <= confidenceThreshold)%R
  /\ isMatch 1000 "github" (recalculate false 1000 Demo.stored) = false.
Proof.
  pose proof (failures_gate_pattern false 1000 Demo.stored) as H.
  cbv zeta in H. destruct H as [Hle H]; [simpl; lia|simpl; lia|].
  split; [exact Hle|apply H].
Defined.

Lemma stale_pattern_stays_gated_witness :
  (confidence (recalculateAll [(true, 86401000%Z); (true, 86402000%Z)] Demo.stored)
   <= 0.75)%R.
Proof.
  pose proof (stale_pattern_stays_gated
                [(true, 86401000%Z); (true, 86402000%Z)] Demo.stored) as H.
  cbv zeta in H. destruct H as (_ & H & _).
  - discriminate.
  - repeat constructor; simpl; lia.
  - exact H.
Defined.

Lemma store_report_lookup_witness :
  fst (getCachedActions Demo.parseURL
         (updatePatternConfidence Demo.parseURL ({[ "K" := [Demo.stored] ]}) 1000 "K"
                                  "pattern_github" true)
         2000 "K" "github portfolio")
  = Some ["A1"; "A2"].
Proof.
  apply (store_report_lookup Demo.parseURL Demo.regExpValid ∅ "K" "github portfolio"
           ["A1"; "A2"] None 1000 1000 2000 ({[ "K" := [Demo.stored] ]})).
  - reflexivity.
  - reflexivity.
  - vm_compute. discriminate.
  - unfold ttl. lia.
  - unfold ttl. lia.
Defined.

Lemma store_outcome_witness :
  cacheSuccessfulPattern Demo.parseURL Demo.regExpValid
    ({[ "K" := [Demo.stored] ]}) 1000 "(" "github portfolio" ["A1"] None = None
  /\ exists cache',
      cacheSuccessfulPattern Demo.parseURL Demo.regExpValid ∅ 1000 "K"
                             "github portfolio" ["A1"; "A2"] None = Some cache'
      /\ cache' !! "K" = Some [Demo.stored].
Proof.
  split.
  - pose proof (store_outcome Demo.parseURL Demo.regExpValid
                  ({[ "K" := [Demo.stored] ]}) 1000 "(" "github portfolio" ["A1"] None)
      as H.
    cbv zeta in H. destruct H as (H & _). destruct H as [H _]; [reflexivity|exact H].
  - pose proof (store_outcome Demo.parseURL Demo.regExpValid ∅ 1000 "K"
                  "github portfolio" ["A1"; "A2"] None) as H.
    cbv zeta in H. destruct H as (_ & H & _).
    destruct H as (cache' & Hstore & _ & Hkey); [reflexivity|].
    exists cache'. split; [exact Hstore|]. apply Hkey. vm_compute. lia.
Defined.

Lemma eviction_leaves_sorted_witness :
  exists cache' kept,
    cacheSuccessfulPattern Demo.parseURL Demo.regExpValid Demo.full 2000 "K"
                           "github portfolio" ["A1"] None = Some cache'
    /\ cache' !! "K" = Some kept
    /\ StronglySorted (fun a b => (confidence b <= confidence a)%R) kept.
Proof.
  destruct (cacheSuccessfulPattern_is_Some Demo.parseURL Demo.regExpValid Demo.full
              2000 "K" "github portfolio" ["A1"] None eq_refl) as [cache' Hstore].
  destruct (eviction_leaves_sorted Demo.parseURL Demo.regExpValid Demo.full 2000 "K"
              "github portfolio" ["A1"] None cache' Hstore)
    as (kept & Hkept & Hsorted).
  - vm_compute. lia.
  - exists cache', kept. split_and!; [exact Hstore|exact Hkept|exact Hsorted].
Defined.

Lemma full_key_admission_witness :
  exists cache',
    cacheSuccessfulPattern Demo.parseURL Demo.regExpValid Demo.full 2000 "K"
                           "github portfolio" ["A1"] None = Some cache'
    /\ cache' !! "K" = Some (sortByConfidence (replicate 100 Demo.trusted)).
Proof.
  destruct (cacheSuccessfulPattern_is_Some Demo.parseURL Demo.regExpValid Demo.full
              2000 "K" "github portfolio" ["A1"] None eq_refl) as [cache' Hstore].
  pose proof (full_key_admission Demo.parseURL Demo.regExpValid Demo.full 2000 "K"
                "github portfolio" ["A1"] None cache') as H.
  cbv zeta in H. destruct (H Hstore) as [Hall _].
  - vm_compute. lia.
  - exists cache'. split; [exact Hstore|]. apply Hall.
    change (Forall (fun q : CachedActionPattern Demo.Action => (0.85 <= confidence q)%R)
                   (replicate 100 Demo.trusted)).
    apply Forall_replicate. simpl. lra.
Defined.

Lemma urlToPattern_prefix_witness :
  urlToPattern Demo.parseURL "K" = JSString.substring 0 50 (getCacheKey Demo.parseURL "K")
  /\ String.length (urlToPattern Demo.parseURL "https://example.com/portfolio")
     = String.length "example.com" + Nat.min 50 (String.length "/portfolio").
Proof.
  split.
  - destruct (urlToPattern_prefix Demo.parseURL "K") as [H _].
    destruct H as [H _]; [reflexivity|exact H].
  - destruct (urlToPattern_prefix Demo.parseURL "https://example.com/portfolio")
      as [_ H].
    destruct (H (mkURL "example.com" "/portfolio")) as (path & rest & _ & _ & _ & Hlen);
      [reflexivity|exact Hlen].
Defined.

(** *** Task descriptions outside the 8-bit range *)

Lemma wide_isWhiteSpace c :
  Wide.isWhiteSpace (N_of_ascii c) = JSString.isWhiteSpace c.
Proof. destruct c as [[] [] [] [] [] [] [] []]; reflexivity. Qed.

Lemma wide_lowerUnit c :
  Wide.lowerUnit (N_of_ascii c) = [N_of_ascii (JSString.lowerChar c)].
Proof. destruct c as [[] [] [] [] [] [] [] []]; reflexivity. Qed.

Lemma wide_toLowerCase s :
  Wide.toLowerCase (Wide.of_string s) = Wide.of_string (JSString.toLowerCase s).
Proof. induction s as [|c s IH]; simpl; [done|]. by rewrite wide_lowerUnit, IH. Qed.

Lemma wide_splitFrom s : forall run,
  Wide.splitFrom run (Wide.of_string s)
  = Wide.of_string <$> JSString.splitFrom run s.
Proof.
  induction s as [|c s IH]; intros run; simpl; [done|].
  rewrite wide_isWhiteSpace. destruct (JSString.isWhiteSpace c).
  - destruct run; simpl; by rewrite IH.
  - rewrite IH. by destruct (JSString.splitFrom false s).
Qed.

Lemma wide_length s : length (Wide.of_string s) = String.length s.
Proof. induction s as [|c s IH]; simpl; [done|]. by rewrite IH. Qed.

Lemma wide_filter (ws : list string) :
  filter (fun word : Wide.ustring => 3 < length word) (Wide.of_string <$> ws)
  = Wide.of_string <$> filter (fun w => 3 < String.length w) ws.
Proof.
  induction ws as [|w ws IH]; [done|].
  rewrite fmap_cons.
  destruct (decide (3 < String.length w)) as [Hlong|Hshort].
  - rewrite (filter_cons_True (fun w => 3 < String.length w)) by done.
    rewrite filter_cons_True by (by rewrite wide_length).
    by rewrite fmap_cons, IH.
  - rewrite (filter_cons_False (fun w => 3 < String.length w)) by done.
    rewrite filter_cons_False by (by rewrite wide_length).
    exact IH.
Qed.

(** On 8-bit text the extraction over code units is the extraction of the
    cache model. *)
Lemma wide_extractKeywords s :
  Wide.extractKeywords (Wide.of_string s) = Wide.of_string <$> extractKeywords s.
Proof.
  unfold Wide.extractKeywords, extractKeywords, Wide.splitWhiteSpace,
    JSString.splitWhiteSpace.
  by rewrite wide_toLowerCase, wide_splitFrom, fmap_take, wide_filter.
Qed.

(** Over code units of any value too, the extraction finds no keyword
    where the lower-cased text has no token longer than three code units. *)
Lemma wide_extractKeywords_nil (text : Wide.ustring) :
  Forall (fun w => length w <= 3) (Wide.splitWhiteSpace (Wide.toLowerCase text)) ->
  Wide.extractKeywords text = [].
Proof.
  intros H. unfold Wide.extractKeywords.
  induction H as [|w ws Hw Hws IH]; [reflexivity|].
  rewrite filter_cons_False by lia. exact IH.
Qed.

(** C10, refuted as stated: the task description is the three code units
    A, B, U+0130. It has one token, of three code units; its lower-cased
    text has four, and the store puts a pattern with a keyword into the
    cache. *)
Lemma short_tokens_store_keyword_cex :
  Forall (fun w => length w <= 3) (Wide.splitWhiteSpace [65; 66; 304]%N)
  /\ exists stored,
      Wide.cacheSuccessfulPattern (Action := string)
        (fun _ => None) (fun _ => true) ∅ 1000
        (Wide.of_string "K") [65; 66; 304]%N ["A1"] None
      = Some {[ Wide.of_string "K" := [stored] ]}
      /\ Wide.taskKeywords stored = [[97; 98; 105; 775]%N]
      /\ Wide.taskKeywords stored <> [].
Proof.
  split.
  - repeat constructor.
  - eexists. split_and!; [reflexivity|reflexivity|discriminate].
Qed.

Example ex_split1 : JSString.splitWhiteSpace " a  b " = [""; "a"; "b"; ""].
Proof. reflexivity. Qed.
Example ex_split2 : JSString.splitWhiteSpace "" = [""].
Proof. reflexivity. Qed.
Example ex_lower : JSString.toLowerCase "Please Open GitHub" = "please open github".
Proof. reflexivity. Qed.
Example ex_incl : JSString.includes "please open my github" "github" = true.
Proof. reflexivity. Qed.
Example ex_incl2 : JSString.includes "please open my github" "portfolio" = false.
Proof. reflexivity. Qed.
Example ex_sub : JSString.substring 0 3 "abcdef" = "abc".
Proof. reflexivity. Qed.
